(** * sgl: analytic geometry in 3-space -- solver and relation engine

    A shallow embedding of [sgl/solver.py], [sgl/point.py], [sgl/plane.py]
    and [sgl/calc.py].  Python numbers are modelled by a scalar interface
    ([Scalar]); it is instantiated with the rationals [Q] (every finite
    float is a rational; arithmetic is exact, rounding is not modelled),
    where the code can be run, and with the reals [R], where square roots
    and angles live. *)

From Stdlib Require Import ZArith QArith Qabs Reals Lqa Lra Lia Bool.
From stdpp Require Import base option list.

(** ** Python results: a value or a raised exception *)

Inductive exn : Type :=
  | ValueError_no_solution            (* ValueError("Has no solution") *)
  | ValueError_count (expected : Z) (got : nat)
                                      (* ValueError("Expected {} values, got {}") *)
  | ValueError_no_item                (* ValueError("No item satisfies ...") *)
  | TypeError
  | IndexError
  | ValueError_unpack                 (* wrong number of values to unpack *)
  | ZeroDivisionError
  | RecursionError.

Inductive result (A : Type) : Type :=
  | Ok (a : A)
  | Raise (e : exn).
Arguments Ok {A} a.
Arguments Raise {A} e.

#[export] Instance result_ret : MRet result := fun A a => Ok a.
#[export] Instance result_bind : MBind result := fun A B f m =>
  match m with
  | Ok a => f a
  | Raise e => Raise e
  end.

(** ** Numbers *)

Class Scalar (K : Type) : Type := {
  s_ofQ : Q -> K;                     (* numeric literals *)
  s_add : K -> K -> K;
  s_sub : K -> K -> K;
  s_mul : K -> K -> K;
  s_div : K -> K -> K;
  s_opp : K -> K;
  s_abs : K -> K;
  s_ltb : K -> K -> bool;             (* x < y *)
  s_eqb : K -> K -> bool              (* x == y *)
}.

Declare Scope scalar_scope.
Delimit Scope scalar_scope with S.
Infix "+" := s_add : scalar_scope.
Infix "-" := s_sub : scalar_scope.
Infix "*" := s_mul : scalar_scope.
Infix "/" := s_div : scalar_scope.
Notation "- x" := (s_opp x) : scalar_scope.
Infix "<?" := s_ltb : scalar_scope.
Infix "=?" := s_eqb : scalar_scope.

#[export] Instance Q_Scalar : Scalar Q := {|
  s_ofQ := fun q => q;
  s_add := Qplus;
  s_sub := Qminus;
  s_mul := Qmult;
  s_div := Qdiv;
  s_opp := Qopp;
  s_abs := Qabs;
  s_ltb := fun x y => negb (Qle_bool y x);
  s_eqb := Qeq_bool
|}.

Definition Rltb (x y : R) : bool := if Rlt_dec x y then true else false.
Definition Reqb (x y : R) : bool := if Req_dec_T x y then true else false.

#[export] Instance R_Scalar : Scalar R := {|
  s_ofQ := Q2R;
  s_add := Rplus;
  s_sub := Rminus;
  s_mul := Rmult;
  s_div := Rdiv;
  s_opp := Ropp;
  s_abs := Rabs;
  s_ltb := Rltb;
  s_eqb := Reqb
|}.

(** The functions of the [math] module that the code calls. *)
Class MathLib (K : Type) : Type := {
  math_pi : K;
  math_sqrt : K -> K;
  math_acos : K -> K
}.

#[export] Instance R_MathLib : MathLib R := {|
  math_pi := PI;
  math_sqrt := sqrt;
  math_acos := acos
|}.

(** ** Python lists *)

(** [l[i] = x]: an index past the end raises IndexError. *)
Definition list_assign {A} (l : list A) (i : nat) (x : A) : result (list A) :=
  if decide (i < length l)%nat then Ok (<[i := x]> l) else Raise IndexError.

(** [l[i]]. *)
Definition list_get {A} (l : list A) (i : nat) : result A :=
  match l !! i with
  | Some x => Ok x
  | None => Raise IndexError
  end.

(** * sgl/solver.py *)

Module solver.
Section WithScalar.
Context {K : Type} `{Scalar K}.
Local Open Scope scalar_scope.

Definition tolerance : K := s_ofQ (1 # 10000000000).

(** [null(f)]: abs(f) < 1e-10 *)
Definition null (f : K) : bool := s_abs f <? tolerance.

(** [nullrow(r)]: all(map(null, r)) *)
Definition nullrow (r : list K) : bool := forallb null r.

(** [count(f, l)] *)
Definition count {A} (f : A -> bool) (l : list A) : nat :=
  fold_left (fun c i => if f i then S c else c) l 0%nat.

(** [index(f, l)]: position of the first item satisfying [f] *)
Fixpoint index_from {A} (f : A -> bool) (l : list A) (i : nat) : result nat :=
  match l with
  | [] => Raise ValueError_no_item
  | v :: l' => if f v then Ok i else index_from f l' (S i)
  end.
Definition index {A} (f : A -> bool) (l : list A) : result nat :=
  index_from f l 0.

(** [first_nonzero(r)]: position of the first non-null entry, else len(r) *)
Fixpoint first_nonzero_from (r : list K) (i : nat) : nat :=
  match r with
  | [] => i
  | v :: r' => if negb (null v) then i else first_nonzero_from r' (S i)
  end.
Definition first_nonzero (r : list K) : nat := first_nonzero_from r 0.

(** A matrix is the list of its rows.  [row[:-1]] and [row[-1]]: the rows
    of a two-dimensional array with at least one column are never empty,
    and the theorems below are stated for such arrays. *)
Definition matrix : Type := list (list K).

Definition coeffs (row : list K) : list K := removelast row.
Definition rhs (row : list K) : K := List.last row (s_ofQ 0).

(** [s.shape[1]] *)
Definition shape1 (s : matrix) : nat := length (hd [] s).

(** The array [s] has [cols] columns. *)
Definition has_cols (cols : nat) (s : matrix) : Prop :=
  Forall (fun row => length row = cols) s.

(** ** class Solution *)

Record Solution : Type := mkSolution {
  _s : matrix;
  varcount : Z;
  _solvable : bool;
  varargs : Z;
  exact : bool
}.

(** A row [0a + 0b + ... = c] with [c] not null. *)
Definition contradiction (row : list K) : bool :=
  forallb null (coeffs row) && negb (null (rhs row)).

(** [Solution.__init__] *)
Definition Solution_init (s : matrix) : Solution :=
  let varcount := (Z.of_nat (shape1 s) - 1)%Z in
  let solvable := negb (existsb contradiction s) in
  let unique_equations :=
    fold_left (fun acc row => if negb (nullrow row) then (acc + 1)%Z else acc)
              s 0%Z in
  let varargs := (varcount - unique_equations)%Z in
  {| _s := s;
     varcount := varcount;
     _solvable := solvable;
     varargs := varargs;
     exact := (varargs =? 0)%Z |}.

(** [Solution.__bool__] *)
Definition Solution_bool (self : Solution) : bool := _solvable self.

(** First loop of [__call__]: "Scan for real solutions". *)
Definition scan_row (vals : list (option K)) (row : list K)
  : result (list (option K)) :=
  if (count (fun i => negb (null i)) (coeffs row) =? 1)%nat then
    var ← index (fun i => negb (null i)) (coeffs row);
    rv ← list_get row var;
    list_assign vals var (Some (rhs row / rv))
  else Ok vals.

Fixpoint scan (rows : matrix) (vals : list (option K))
  : result (list (option K)) :=
  match rows with
  | [] => Ok vals
  | row :: rows' => vals' ← scan_row vals row; scan rows' vals'
  end.

(** Second loop: "Fill in the rest with given values".  [i] counts down
    from [len(vals)]; [v] is kept as a stack whose top is the last
    argument, which is what [v.pop()] removes. *)
Fixpoint fill (i : nat) (v : list K) (vals : list (option K))
  : list (option K) :=
  match i with
  | O => vals
  | S i' =>
      match v with
      | [] => vals                                   (* break *)
      | x :: v' =>
          match vals !! i' with
          | Some None => fill i' v' (<[i' := Some x]> vals)
          | _ => fill i' v vals
          end
      end
  end.

(** [sum(-1 * row[j] * vals[j] for j in range(tbd + 1, len(row) - 1))] *)
Definition term (row : list K) (vals : list (option K)) (j : nat) : result K :=
  rj ← list_get row j;
  vj ← list_get vals j;
  match vj with
  | Some x => Ok ((s_ofQ (-1) * rj) * x)
  | None => Raise TypeError
  end.

Fixpoint sum_terms (row : list K) (vals : list (option K)) (js : list nat)
  (acc : K) : result K :=
  match js with
  | [] => Ok acc
  | j :: js' => t ← term row vals j; sum_terms row vals js' (acc + t)
  end.

(** Body of the third loop. *)
Definition backsubst_row (vals : list (option K)) (row : list K)
  : result (list (option K)) :=
  if nullrow row then Ok vals                        (* continue *)
  else
    let tbd := first_nonzero row in
    s ← sum_terms row vals
          (seq (S tbd) (length row - 1 - S tbd)) (s_ofQ 0);
    let s := s + rhs row in
    rt ← list_get row tbd;
    list_assign vals tbd (Some (s / rt)).

(** Third loop, over the rows from the last to the first:
    [rrows] is [reversed(self._s)]. *)
Fixpoint backsubst (rrows : matrix) (vals : list (option K))
  : result (list (option K)) :=
  match rrows with
  | [] => Ok vals
  | row :: rrows' => vals' ← backsubst_row vals row; backsubst rrows' vals'
  end.

(** [Solution.__call__], called with the argument tuple [v] *)
Definition Solution_call (self : Solution) (v : list K)
  : result (list (option K)) :=
  if negb (_solvable self) then Raise ValueError_no_solution
  else if negb (Z.of_nat (length v) =? varargs self)%Z
  then Raise (ValueError_count (varargs self) (length v))
  else
    let vals := replicate (Z.to_nat (varcount self)) None in
    vals ← scan (_s self) vals;
    let vals := fill (length vals) (rev v) vals in
    backsubst (rev (_s self)) vals.

(** ** [scipy.linalg.lu(matrix, True)]

    scipy is not part of this repository.  [lu_U] models the second
    component of its result, the upper factor [U] of [P L U = matrix], as
    LAPACK's getrf computes it in exact arithmetic: Gaussian elimination
    with partial pivoting.  Step [j] takes as pivot the first entry of
    largest magnitude in column [j] on or below the diagonal; when that
    entry is exactly 0 the column is left alone, otherwise the pivot row
    is swapped up and subtracted from the rows below.  [U] has
    [min(rows, columns)] rows.

    Rounding is not modelled.  The model and the floating-point
    factorisation agree where no step rounds: on a one-row matrix, on a
    matrix whose pivot columns are zero below the pivot, and where the
    rows to eliminate are zero.  Where a row is a multiple of another by
    a factor that is not exact in floating point, the program is left
    with a residual row that the model does not have. *)

Definition entry (row : list K) (j : nat) : K := default (s_ofQ 0) (row !! j).

Fixpoint argmax_from (j : nat) (rows : matrix) (i best : nat) (bestv : K)
  : nat :=
  match rows with
  | [] => best
  | r :: rows' =>
      let a := s_abs (entry r j) in
      if bestv <? a then argmax_from j rows' (S i) i a
      else argmax_from j rows' (S i) best bestv
  end.

Definition pivot_index (j : nat) (rows : matrix) : nat :=
  match rows with
  | [] => 0%nat
  | r :: rows' => argmax_from j rows' 1 0 (s_abs (entry r j))
  end.

Definition eliminate (j : nat) (rp r : list K) : list K :=
  let l := entry r j / entry rp j in
  imap (fun c x => if (c <=? j)%nat then s_ofQ 0 else x - l * entry rp c) r.

Fixpoint lu_steps (k j : nat) (rows : matrix) : matrix :=
  match k, rows with
  | S k', r0 :: rest =>
      let p := pivot_index j rows in
      let rp := default r0 (rows !! p) in
      if entry rp j =? s_ofQ 0 then r0 :: lu_steps k' (S j) rest
      else
        let rest' := match p with
                     | O => rest
                     | S p' => <[p' := r0]> rest
                     end in
        rp :: lu_steps k' (S j) (map (eliminate j rp) rest')
  | _, _ => []
  end.

Definition lu_U (a : matrix) : matrix :=
  lu_steps (Nat.min (length a) (shape1 a)) 0 a.

(** [solve(matrix)] *)
Definition solve (m : matrix) : Solution := Solution_init (lu_U m).

End WithScalar.
End solver.


(** * Primitives: sgl/vector.py, sgl/point.py, sgl/line.py, sgl/plane.py *)

Module primitives.

(** Modelled from the spec: sgl/vector.py is not among the sources.
    A Vector is "(x, y, z) reals", with "add, scale, dot, cross, length,
    normalize, angle-between" (spec sections 2 and 3). *)
Record Vector (K : Type) : Type := mkVector { vx : K; vy : K; vz : K }.
Arguments mkVector {K} vx vy vz.
Arguments vx {K} _.
Arguments vy {K} _.
Arguments vz {K} _.

(** sgl/point.py: [self.x, self.y, self.z] *)
Record Point (K : Type) : Type := mkPoint { x : K; y : K; z : K }.
Arguments mkPoint {K} x y z.
Arguments x {K} _.
Arguments y {K} _.
Arguments z {K} _.

(** Modelled from the spec: sgl/line.py is not among the sources.
    A Line is a "support vector sv (a point, as a vector) and direction
    vector dv" (spec section 3); calc.py reads [a.sv] and [a.dv]. *)
Record Line (K : Type) : Type := mkLine { sv : Vector K; dv : Vector K }.
Arguments mkLine {K} sv dv.
Arguments sv {K} _.
Arguments dv {K} _.

(** sgl/plane.py, [_init_pn]: [self.p] and [self.n] *)
Record Plane (K : Type) : Type := mkPlane { p : Point K; n : Vector K }.
Arguments mkPlane {K} p n.
Arguments p {K} _.
Arguments n {K} _.

(** Modelled from the spec: the tolerance-based "parallel-test" and
    "orthogonal-test" of sgl/vector.py.  The spec does not give their
    formulas, so they stay parameters of the development. *)
Class VectorTests (K : Type) : Type := {
  Vector_parallel : Vector K -> Vector K -> bool;
  Vector_orthogonal : Vector K -> Vector K -> bool
}.

Section WithScalar.
Context {K : Type} `{Scalar K}.
Local Open Scope scalar_scope.

(** Python's [x / y] on floats: ZeroDivisionError when [y] is 0. *)
Definition py_div (a b : K) : result K :=
  if b =? s_ofQ 0 then Raise ZeroDivisionError else Ok (a / b).

(** *** Vector *)

(** Modelled from the spec: [u + v] of sgl/vector.py ("add"). *)
Definition Vector_add (u v : Vector K) : Vector K :=
  mkVector (vx u + vx v) (vy u + vy v) (vz u + vz v).
(** Modelled from the spec: [u - v] of sgl/vector.py. *)
Definition Vector_sub (u v : Vector K) : Vector K :=
  mkVector (vx u - vx v) (vy u - vy v) (vz u - vz v).
(** Modelled from the spec: [k * v] of sgl/vector.py, a number times a
    vector ("scale"). *)
Definition Vector_scale (k : K) (v : Vector K) : Vector K :=
  mkVector (k * vx v) (k * vy v) (k * vz v).
(** Modelled from the spec: [u * v] of sgl/vector.py ("dot"). *)
Definition Vector_dot (u v : Vector K) : K :=
  vx u * vx v + vy u * vy v + vz u * vz v.
(** Modelled from the spec: [u.cross(v)] of sgl/vector.py ("cross"). *)
Definition Vector_cross (u v : Vector K) : Vector K :=
  mkVector (vy u * vz v - vz u * vy v)
           (vz u * vx v - vx u * vz v)
           (vx u * vy v - vy u * vx v).
(** Modelled from the spec: [list(v)], the components of a Vector. *)
Definition Vector_list (v : Vector K) : list K := [vx v; vy v; vz v].
(** Modelled from the spec: [v[i]] for i = 0, 1, 2. *)
Definition Vector_get (v : Vector K) (i : nat) : K :=
  match i with
  | 0%nat => vx v
  | 1%nat => vy v
  | _ => vz v
  end.
(** Modelled from the spec: [Vector(a, b)] of sgl/vector.py for two
    Points, "the connecting vector" from a to b (spec section 4.2). *)
Definition Vector_between (a b : Point K) : Vector K :=
  mkVector (x b - x a) (y b - y a) (z b - z a).

(** *** Point *)

(** [Point(a, b, c)] and [Point(Vector)] *)
Definition Point_of_vector (v : Vector K) : Point K :=
  mkPoint (vx v) (vy v) (vz v).

(** Modelled from the spec: [unify_types] of sgl/util.py, through which
    [Point(coords)] passes its coordinates, is not among the sources.  A
    Point has "(x, y, z) reals" (spec section 3), so [Point(coords)] for
    a tuple returned by a Solution rejects a tuple that is not three
    numbers. *)
Definition Point_of_tuple (t : list (option K)) : result (Point K) :=
  match t with
  | [Some a; Some b; Some c] => Ok (mkPoint a b c)
  | [_; _; _] => Raise TypeError
  | _ => Raise ValueError_unpack
  end.

(** [Point.pv] *)
Definition Point_pv (self : Point K) : Vector K :=
  mkVector (x self) (y self) (z self).

(** [Point.moved] *)
Definition Point_moved (self : Point K) (v : Vector K) : Point K :=
  Point_of_vector (Vector_add (Point_pv self) v).

(** [Point.__eq__] *)
Definition Point_eq (self other : Point K) : bool :=
  (x self =? x other) && (y self =? y other) && (z self =? z other).

(** Python's subscript on a sequence of three items: -3 .. 2 *)
Definition index3 (item : Z) : result nat :=
  if ((0 <=? item) && (item <? 3))%Z then Ok (Z.to_nat item)
  else if ((-3 <=? item) && (item <? 0))%Z then Ok (Z.to_nat (item + 3))
  else Raise IndexError.

(** [Point.__getitem__]: (self.x, self.y, self.z)[item] *)
Definition Point_getitem (self : Point K) (item : Z) : result K :=
  i ← index3 item;
  Ok (match i with
      | 0%nat => x self
      | 1%nat => y self
      | _ => z self
      end).

(** [Point.__setitem__]: setattr(self, "xyz"[item], value).  The method
    mutates [self]; the model returns the object's new state. *)
Definition Point_setitem (self : Point K) (item : Z) (value : K)
  : result (Point K) :=
  i ← index3 item;
  Ok (match i with
      | 0%nat => mkPoint value (y self) (z self)
      | 1%nat => mkPoint (x self) value (z self)
      | _ => mkPoint (x self) (y self) value
      end).

(** *** Line *)

(** Modelled from the spec: [Line(Point, Vector)] of sgl/line.py; the
    support is kept "as a vector" (spec section 3). *)
Definition Line_of_point (a : Point K) (d : Vector K) : Line K :=
  mkLine (Point_pv a) d.

(** *** Plane *)

(** [Plane.__contains__] for a Point *)
Definition Plane_contains_point (self : Plane K) (other : Point K) : bool :=
  Vector_dot (Point_pv other) (n self) =? Vector_dot (Point_pv (p self)) (n self).

(** Modelled from the spec: one reading of the two tolerance-based
    tests, used where the development runs the code on examples.
    Orthogonal: the dot product is null; parallel: the cross product is
    null in every component. *)
Definition tolerance_tests : VectorTests K := {|
  Vector_parallel := fun u v => solver.nullrow (Vector_list (Vector_cross u v));
  Vector_orthogonal := fun u v => solver.null (Vector_dot u v)
|}.

End WithScalar.

Section WithMath.
Context {K : Type} `{Scalar K} `{MathLib K}.
Local Open Scope scalar_scope.

(** Modelled from the spec: [v.length()] of sgl/vector.py ("length"). *)
Definition Vector_length (v : Vector K) : K := math_sqrt (Vector_dot v v).

(** Modelled from the spec: [v.normalized()] of sgl/vector.py
    ("normalize"): the vector divided by its length. *)
Definition Vector_normalized (v : Vector K) : result (Vector K) :=
  let len := Vector_length v in
  a ← py_div (vx v) len;
  b ← py_div (vy v) len;
  c ← py_div (vz v) len;
  Ok (mkVector a b c).

(** Modelled from the spec: [u.angle(v)] of sgl/vector.py
    ("angle-between"): the arc cosine of the dot product over the
    product of the lengths. *)
Definition Vector_angle (u v : Vector K) : result K :=
  c ← py_div (Vector_dot u v) (Vector_length u * Vector_length v);
  Ok (math_acos c).

End WithMath.
End primitives.

(** * sgl/calc.py *)

Module calc.
Import solver primitives.

(** The objects the relations of calc.py receive and return. *)
Inductive pyobj (K : Type) : Type :=
  | PyNone
  | PyNotImplemented
  | PyBool (b : bool)
  | PyNum (k : K)
  | PyVector (v : Vector K)
  | PyPoint (a : Point K)
  | PyLine (l : Line K)
  | PyPlane (e : Plane K).
Arguments PyNone {K}.
Arguments PyNotImplemented {K}.
Arguments PyBool {K} b.
Arguments PyNum {K} k.
Arguments PyVector {K} v.
Arguments PyPoint {K} a.
Arguments PyLine {K} l.
Arguments PyPlane {K} e.

Section Relations.
Context {K : Type} `{Scalar K} `{VectorTests K}.
Local Open Scope scalar_scope.

(** Truth value of an object in [if] and [and]. *)
Definition truthy (o : pyobj K) : bool :=
  match o with
  | PyNone => false
  | PyBool b => b
  | PyNum k => negb (k =? s_ofQ 0)
  | _ => true
  end.

(** [parallel(a, b)] *)
Definition parallel (a b : pyobj K) : pyobj K :=
  match a, b with
  | PyLine a, PyLine b => PyBool (Vector_parallel (dv a) (dv b))
  | PyLine a, PyPlane b => PyBool (Vector_orthogonal (dv a) (n b))
  | PyPlane a, PyLine b =>                         (* parallel(b, a) *)
      PyBool (Vector_orthogonal (dv b) (n a))
  | PyPlane a, PyPlane b => PyBool (Vector_parallel (n a) (n b))
  | _, _ => PyNotImplemented
  end.

(** sgl/plane.py, [Plane.__contains__] for a Line:
    [Point(other.sv) in self and self.parallel(other)].  The method
    [parallel] is inherited from GeoBody (sgl/body.py, not among the
    sources) and is taken to be [parallel(self, other)] of calc.py. *)
Definition Plane_contains_line (self : Plane K) (other : Line K) : bool :=
  Plane_contains_point self (Point_of_vector (sv other))
  && truthy (parallel (PyPlane self) (PyLine other)).

(** The Line/Plane branch of [intersection]. *)
Definition intersection_Line_Plane (a : Line K) (b : Plane K)
  : result (pyobj K) :=
  if Plane_contains_line b a then Ok (PyLine a)
  else if truthy (parallel (PyLine a) (PyPlane b)) then Ok PyNone
  else
    mu ← py_div (Vector_dot (n b) (Point_pv (p b)) - Vector_dot (n b) (sv a))
                (Vector_dot (n b) (dv a));
    Ok (PyPoint (Point_of_vector (Vector_add (sv a) (Vector_scale mu (dv a))))).

(** The systems that [intersection] hands to the solver. *)
Definition Line_Line_system (a b : Line K) : matrix :=
  [ [Vector_get (dv a) 0; - Vector_get (dv b) 0;
     Vector_get (sv b) 0 - Vector_get (sv a) 0];
    [Vector_get (dv a) 1; - Vector_get (dv b) 1;
     Vector_get (sv b) 1 - Vector_get (sv a) 1];
    [Vector_get (dv a) 2; - Vector_get (dv b) 2;
     Vector_get (sv b) 2 - Vector_get (sv a) 2] ].

Definition Plane_Plane_system (a b : Plane K) : matrix :=
  [ Vector_list (n a) ++ [Vector_dot (n a) (Point_pv (p a))];
    Vector_list (n b) ++ [Vector_dot (n b) (Point_pv (p b))] ].

(** [intersection(a, b)] *)
Definition intersection (a b : pyobj K) : result (pyobj K) :=
  match a, b with
  | PyLine a, PyLine b =>
      let solution := solve (Line_Line_system a b) in
      if negb (Solution_bool solution) then Ok PyNone
      else
        t ← Solution_call solution [];
        match t with
        | [Some lmb; mu] =>
            Ok (PyPoint (Point_of_vector
                           (Vector_add (sv a) (Vector_scale lmb (dv a)))))
        | [None; mu] => Raise TypeError             (* float(None) *)
        | _ => Raise ValueError_unpack
        end
  | PyLine a, PyPlane b => intersection_Line_Plane a b
  | PyPlane a, PyLine b => intersection_Line_Plane b a   (* intersection(b, a) *)
  | PyPlane a, PyPlane b =>
      let solution := solve (Plane_Plane_system a b) in
      if negb (Solution_bool solution) then Ok PyNone
      else
        t1 ← Solution_call solution [s_ofQ 1];
        p1 ← Point_of_tuple t1;
        t2 ← Solution_call solution [s_ofQ 2];
        p2 ← Point_of_tuple t2;
        Ok (PyLine (mkLine (Point_pv p1)
                           (Vector_sub (Point_pv p2) (Point_pv p1))))
  | _, _ => Ok PyNotImplemented
  end.

(** [orthogonal(a, b)] *)
Definition orthogonal (a b : pyobj K) : pyobj K :=
  match a, b with
  | PyLine a, PyLine b => PyBool (null (Vector_dot (dv a) (dv b)))
  | PyLine a, PyPlane b => PyBool (Vector_parallel (dv a) (n b))
  | PyPlane a, PyLine b =>                         (* orthogonal(b, a) *)
      PyBool (Vector_parallel (dv b) (n a))
  | PyPlane a, PyPlane b => PyBool (Vector_orthogonal (n a) (n b))
  | _, _ => PyNotImplemented
  end.

End Relations.

Section Metric.
Context {K : Type} `{Scalar K} `{MathLib K} `{VectorTests K}.
Local Open Scope scalar_scope.

(** [acute(rad)] *)
Definition acute (rad : K) : K :=
  if s_ofQ (1 # 2) * math_pi <? rad then math_pi - rad else rad.

(** The Line/Plane branch of [angle]. *)
Definition angle_Line_Plane (a : Line K) (b : Plane K) : result (pyobj K) :=
  r ← Vector_angle (dv a) (n b);
  let rad := acute r in
  Ok (PyNum (s_ofQ (1 # 2) * math_pi - rad)).

(** [angle(a, b)] *)
Definition angle (a b : pyobj K) : result (pyobj K) :=
  match a, b with
  | PyLine a, PyLine b =>
      r ← Vector_angle (dv a) (dv b); Ok (PyNum (acute r))
  | PyLine a, PyPlane b => angle_Line_Plane a b
  | PyPlane a, PyLine b => angle_Line_Plane b a     (* angle(b, a) *)
  | PyPlane a, PyPlane b =>
      r ← Vector_angle (n a) (n b); Ok (PyNum (acute r))
  | _, _ => Ok PyNotImplemented
  end.

(** [distance(a, b)].  The function calls itself; [depth] is the number
    of nested calls the interpreter still allows, and RecursionError is
    raised when it is used up. *)
Fixpoint distance_rec (depth : nat) (a b : pyobj K) : result (pyobj K) :=
  match depth with
  | O => Raise RecursionError
  | S d =>
      match a, b with
      | PyPoint a, PyPoint b =>
          Ok (PyNum (Vector_length (Vector_between a b)))
      | PyPoint a, PyLine b =>
          let aux_plane := mkPlane a (dv b) in
          foot ← intersection (PyPlane aux_plane) (PyLine b);
          distance_rec d (PyPoint a) foot
      | PyLine a, PyPoint b => distance_rec d (PyPoint b) (PyLine a)
      | PyLine a, PyLine b =>
          normale ← Vector_normalized (Vector_cross (dv a) (dv b));
          Ok (PyNum (s_abs (Vector_dot (Vector_sub (sv b) (sv a)) normale)))
      | PyPoint a, PyPlane b =>
          let aux_line := Line_of_point a (n b) in
          foot ← intersection (PyLine aux_line) (PyPlane b);
          distance_rec d (PyPoint a) foot
      | PyPlane a, PyPoint b => distance_rec d (PyPoint b) (PyPlane a)
      | PyLine a, PyPlane b =>
          if truthy (parallel (PyLine a) (PyPlane b))
          then distance_rec d (PyPoint (Point_of_vector (sv a))) (PyPlane b)
          else Ok (PyNum (s_ofQ 0))
      | PyPlane a, PyLine b => distance_rec d (PyLine b) (PyPlane a)
      | _, _ => Ok PyNotImplemented
      end
  end.

(** The interpreter's default recursion limit. *)
Definition recursion_limit : nat := 1000.

Definition distance (a b : pyobj K) : result (pyobj K) :=
  distance_rec recursion_limit a b.

End Metric.
End calc.

(** * sgl/plane.py *)

Module plane.
Import solver primitives calc.

Section WithScalar.
Context {K : Type} `{Scalar K} `{VectorTests K}.
Local Open Scope scalar_scope.

(** Modelled from the spec: [unify_types] of sgl/util.py, through which
    [Point(a, b, c)] passes its arguments, is not among the sources.  A
    Point has "(x, y, z) reals" (spec section 3), so an argument that is
    None is rejected.  [Point.__init__] itself raises TypeError for a
    number of arguments other than one or three; a single argument that
    is a number or None is no sequence of coordinates. *)
Definition Point_init (args : list (option K)) : result (Point K) :=
  match args with
  | [Some a; Some b; Some c] => Ok (mkPoint a b c)
  | _ => Raise TypeError
  end.

(** [Plane(Point, Point, Point)]: the vectors AB and AC, their cross
    product as the normal, then [_init_pn(a, vec)]. *)
Definition Plane_of_points (a b c : Point K) : Plane K :=
  let vab := Vector_sub (Point_pv b) (Point_pv a) in
  let vac := Vector_sub (Point_pv c) (Point_pv a) in
  let vec := Vector_cross vab vac in
  mkPlane a vec.

(** [Plane(Point, Vector, Vector)] *)
Definition Plane_of_vectors (a : Point K) (b c : Vector K) : Plane K :=
  let vec := Vector_cross b c in
  mkPlane a vec.

(** [Plane._init_gf(a, b, c, d)], that is [Plane(a, b, c, d)] *)
Definition Plane_init_gf (a b c d : K) : result (Plane K) :=
  let solution := solve [[a; b; c; d]] in
  let normal := mkVector a b c in
  t ← Solution_call solution [s_ofQ 1; s_ofQ 1];
  pt ← Point_init t;
  Ok (mkPlane pt normal).

(** [Plane.__eq__]: self.p in other and self.parallel(other) *)
Definition Plane_eq (self other : Plane K) : bool :=
  Plane_contains_point other (p self)
  && truthy (parallel (PyPlane self) (PyPlane other)).

(** [Plane.point_normal] *)
Definition Plane_point_normal (self : Plane K) : Vector K * Vector K :=
  (Point_pv (p self), n self).

(** [Plane.general_form] *)
Definition Plane_general_form (self : Plane K) : list K :=
  [Vector_get (n self) 0; Vector_get (n self) 1; Vector_get (n self) 2;
   Vector_dot (n self) (Point_pv (p self))].

End WithScalar.
End plane.

(** * The resolution order, as a description (section 4.1 of the spec) *)

Module resolution.
Import solver.
Section WithScalar.
Context {K : Type} `{Scalar K}.
Local Open Scope scalar_scope.

(** Positions of the coefficients that are not null, counted from [i]. *)
Fixpoint nonnull_from (cs : list K) (i : nat) : list nat :=
  match cs with
  | [] => []
  | c :: cs' =>
      if null c then nonnull_from cs' (S i) else i :: nonnull_from cs' (S i)
  end.

(** The row has exactly one non-null coefficient, that of variable [k]. *)
Definition single_at (row : list K) (k : nat) : Prop :=
  nonnull_from (coeffs row) 0 = [k].

#[export] Instance single_at_dec (row : list K) (k : nat)
  : Decision (single_at row k).
Proof. unfold single_at. apply _. Defined.

(** First step: variable [k] is fixed by the last row that has exactly
    one non-null coefficient, that of [k]; its value is RHS / coefficient. *)
Fixpoint fixed_by (rows : matrix) (k : nat) : option K :=
  match rows with
  | [] => None
  | row :: rows' =>
      match fixed_by rows' k with
      | Some x => Some x
      | None =>
          if decide (single_at row k) then Some (rhs row / entry row k)
          else None
      end
  end.

Definition fixed_by_single_rows (n : nat) (rows : matrix) : list (option K) :=
  map (fixed_by rows) (seq 0 n).

(** Second step: the unresolved variables, from the right, take the
    supplied values, from the last one, until either runs out. *)
Definition is_unresolved (vals : list (option K)) (i : nat) : bool :=
  match vals !! i with
  | Some None => true
  | _ => false
  end.

Definition unresolved_below (i : nat) (vals : list (option K)) : list nat :=
  List.filter (is_unresolved vals) (seq 0 i).

Definition assign_all (vals : list (option K)) (ixs : list (nat * K))
  : list (option K) :=
  fold_left (fun acc ix => <[ix.1 := Some ix.2]> acc) ixs vals.

Definition fill_from_right (vals : list (option K)) (v : list K)
  : list (option K) :=
  assign_all vals (zip (rev (unresolved_below (length vals) vals)) (rev v)).

(** The third loop of the code as a fold over the rows: the body
    [backsubst_row] is applied to the last row first. *)
Definition backsubst_rows (rows : matrix) (vals : list (option K))
  : result (list (option K)) :=
  foldr (fun row acc => vals ← acc; backsubst_row vals row) (Ok vals) rows.

(** Third step, in the words of the specification: "for each non-null
    row, its leading (first non-null) unknown is solved in terms of
    already-resolved variables strictly to its right:
    leading_var = (RHS - sum of coeff_j * val_j for j > leading)
                  / coeff_leading".

    The leading unknown of a row is the first variable whose coefficient
    is not null; a row without one is passed over. *)
Definition leading (row : list K) : option nat :=
  head (nonnull_from (coeffs row) 0).

(** The value of variable [j], when it is resolved. *)
Definition resolved (vals : list (option K)) (j : nat) : option K :=
  match vals !! j with
  | Some (Some x) => Some x
  | _ => None
  end.

(** A sum, taken from the left, starting at 0. *)
Definition sigma (terms : list K) : K := fold_left s_add terms (s_ofQ 0).

(** One row of the third step.  A variable right of the leading one that
    is not resolved has no value to enter the sum: the query fails with
    a TypeError. *)
Definition solve_leading (row : list K) (vals : list (option K))
  : result (list (option K)) :=
  match leading row with
  | None => Ok vals
  | Some l =>
      let right := seq (S l) (length vals - S l) in
      match mapM (resolved vals) right with
      | None => Raise TypeError
      | Some xs =>
          let sum := sigma (zip_with (fun j x => entry row j * x) right xs) in
          Ok (<[l := Some ((rhs row - sum) / entry row l)]> vals)
      end
  end.

(** The rows are taken from the bottom to the top. *)
Definition back_substitute (rows : matrix) (vals : list (option K))
  : result (list (option K)) :=
  foldr (fun row acc => vals ← acc; solve_leading row vals) (Ok vals) rows.

End WithScalar.
End resolution.

(** * The vocabulary of the specification *)

Module statements.
Import solver primitives calc.

Section Generic.
Context {K : Type} `{Scalar K}.

(** A contradiction row, as the specification words it: every
    coefficient is null and the right-hand side is not. *)
Definition contradiction_row (row : list K) : Prop :=
  Forall (fun c => null c = true) (coeffs row) /\ null (rhs row) = false.

(** Coordinate [i] (0, 1, 2) of a Point. *)
Definition coordinate (self : Point K) (i : nat) : K :=
  match i with
  | 0%nat => x self
  | 1%nat => y self
  | _ => z self
  end.

(** The coordinate that an item from -3 to 2 selects: "xyz"[item]. *)
Definition selected (item : Z) : nat := Z.to_nat (item mod 3).

End Generic.

(** Kinds of arguments of a relation. *)
Inductive kind : Type := KPoint | KLine | KPlane | KOther.

Definition kind_of {K} (o : pyobj K) : kind :=
  match o with
  | PyPoint _ => KPoint
  | PyLine _ => KLine
  | PyPlane _ => KPlane
  | _ => KOther
  end.

(** Section 4.2: the pairs for which intersection, parallel, angle and
    orthogonal are defined ... *)
Definition supported_relation (a b : kind) : bool :=
  match a, b with
  | KLine, KLine | KLine, KPlane | KPlane, KLine | KPlane, KPlane => true
  | _, _ => false
  end.

(** ... and those for which distance is defined. *)
Definition supported_distance (a b : kind) : bool :=
  match a, b with
  | KPoint, KPoint | KPoint, KLine | KLine, KPoint | KLine, KLine
  | KPoint, KPlane | KPlane, KPoint | KLine, KPlane | KPlane, KLine => true
  | _, _ => false
  end.

Section OverQ.
Local Open Scope Q_scope.

(** Left-hand side of an equation at the assignment [xs]. *)
Definition lhs_value (row xs : list Q) : Q :=
  fold_left Qplus (zip_with Qmult (coeffs row) xs) 0.

(** The assignment [xs] satisfies the equation [row] exactly. *)
Definition equation_holds (xs row : list Q) : Prop :=
  lhs_value row xs == rhs row.

(** The assignment [xs] satisfies [row] within the tolerance 1e-10. *)
Definition within_tolerance (xs row : list Q) : Prop :=
  Qabs (lhs_value row xs - rhs row) < 1 # 10000000000.

(** A system is consistent when some assignment satisfies every row. *)
Definition consistent (m : list (list Q)) : Prop :=
  exists xs, length xs = (shape1 m - 1)%nat /\ Forall (equation_holds xs) m.

(** A returned tuple solves the system: every entry is a number and the
    numbers satisfy every equation within the tolerance. *)
Definition solves (m : list (list Q)) (t : list (option Q)) : Prop :=
  exists xs, t = map Some xs /\ Forall (within_tolerance xs) m.

(** A point of the line: sv + t dv. *)
Definition on_line (l : Line Q) (pt : Vector Q) : Prop :=
  exists t : Q,
    vx pt == vx (sv l) + t * vx (dv l) /\
    vy pt == vy (sv l) + t * vy (dv l) /\
    vz pt == vz (sv l) + t * vz (dv l).

(** Two lines are coincident when they are the same set of points. *)
Definition coincident (a b : Line Q) : Prop :=
  forall pt, on_line a pt <-> on_line b pt.

(** A vector along a coordinate axis: two of its components are 0. *)
Definition axis_parallel (v : Vector Q) : Prop :=
  (vy v == 0 /\ vz v == 0) \/ (vx v == 0 /\ vz v == 0)
  \/ (vx v == 0 /\ vy v == 0).

(** Rows of a rank-one system: (u, -k u, c u). *)
Definition prop_row (k c : Q) (row : list Q) : Prop :=
  exists u v w, row = [u; - v; w] /\ v == k * u /\ w == c * u.

(** Rows that vanish behind the first column. *)
Definition zero_row (row : list Q) : Prop :=
  exists x y, row = [0; x; y] /\ x == 0 /\ y == 0.

End OverQ.

Section OverR.
Local Open Scope R_scope.

(** A vector other than the zero vector. *)
Definition nonzero (v : Vector R) : Prop :=
  vx v <> 0 \/ vy v <> 0 \/ vz v <> 0.

(** The angle between two vectors, in [0, pi]. *)
Definition raw_angle (u v : Vector R) : R :=
  acos (Vector_dot u v / (Vector_length u * Vector_length v)).

(** The acute representative: the smaller of an angle and its supplement. *)
Definition acute_representative (theta : R) : R := Rmin theta (PI - theta).

(** The angle the specification assigns to a supported pair. *)
Definition specified_angle (a b : pyobj R) : option R :=
  match a, b with
  | PyLine a, PyLine b => Some (acute_representative (raw_angle (dv a) (dv b)))
  | PyPlane a, PyPlane b => Some (acute_representative (raw_angle (n a) (n b)))
  | PyLine a, PyPlane b =>
      Some (PI / 2 - acute_representative (raw_angle (dv a) (n b)))
  | PyPlane a, PyLine b =>
      Some (PI / 2 - acute_representative (raw_angle (dv b) (n a)))
  | _, _ => None
  end.

(** Directions of lines and normals of planes are not the zero vector. *)
Definition well_formed (o : pyobj R) : Prop :=
  match o with
  | PyLine l => nonzero (dv l)
  | PyPlane e => nonzero (n e)
  | _ => True
  end.

End OverR.
End statements.

(** * Reduced systems with a unique solution *)

Module echelon.
Import solver.

Section OverQ.
Local Open Scope Q_scope.

(** A reduced square system with a unique solution: n rows of n + 1
    entries, every diagonal entry not null, every entry left of the
    diagonal equal to 0. *)
Definition triangular (n : nat) (s : list (list Q)) : Prop :=
  length s = n /\ has_cols (S n) s
  /\ forall i row, s !! i = Some row ->
       null (entry row i) = false
       /\ forall j, (j < i)%nat -> entry row j == 0.

(** Sum of a list of rationals. *)
Definition qsum (l : list Q) : Q := fold_right Qplus 0 l.

(** The sum the third loop forms for row [i], read off a list of values. *)
Definition tail_sum (n : nat) (row xs : list Q) (i : nat) : Q :=
  fold_left (fun a jx => a + ((-1) * entry row jx.1) * jx.2)
            (zip (seq (S i) (n - S i))
                 (map (entry xs) (seq (S i) (n - S i)))) 0.

End OverQ.
End echelon.

(** * Properties of the solver *)

Import solver primitives calc resolution statements.

Section SolverFacts.
Context {K : Type} `{Scalar K}.

Lemma forallb_Forall_true {A} (f : A -> bool) (l : list A) :
  forallb f l = true <-> Forall (fun a => f a = true) l.
Proof.
  induction l as [|a l IH]; simpl.
  - split; [constructor | reflexivity].
  - rewrite andb_true_iff, IH. split.
    + intros [Ha Hl]. constructor; assumption.
    + intros Hal. inversion Hal; subst. split; assumption.
Qed.

Lemma contradiction_spec (row : list K) :
  contradiction row = true <-> contradiction_row row.
Proof.
  unfold contradiction, contradiction_row.
  rewrite andb_true_iff, forallb_Forall_true, negb_true_iff. reflexivity.
Qed.

Lemma existsb_Exists_true {A} (f : A -> bool) (l : list A) :
  existsb f l = true <-> Exists (fun a => f a = true) l.
Proof.
  induction l as [|a l IH]; simpl.
  - split; [discriminate | intros Hex; inversion Hex].
  - rewrite orb_true_iff, IH. split.
    + intros [Ha | Hl]; [left | right]; assumption.
    + intros Hex. inversion Hex; subst; [left | right]; assumption.
Qed.

Lemma solvable_false_iff (s : matrix) :
  Solution_bool (Solution_init s) = false <-> Exists contradiction_row s.
Proof.
  unfold Solution_bool, Solution_init. simpl.
  rewrite negb_false_iff, existsb_Exists_true.
  split; intros Hex; (eapply Exists_impl; [exact Hex|]);
    intros row Hrow; apply contradiction_spec; exact Hrow.
Qed.

Lemma solvable_no_contradiction (s : matrix) :
  Solution_bool (Solution_init s) = true ->
  Forall (fun row => contradiction row = false) s.
Proof.
  unfold Solution_bool, Solution_init. simpl. rewrite negb_true_iff.
  induction s as [|row s IH]; simpl; [constructor|].
  rewrite orb_false_iff. intros [Hrow Hs]. constructor; auto.
Qed.

(** Number of rows that are not entirely null, counted as a sum. *)
Lemma unique_equations_acc (s : matrix) (acc : Z) :
  fold_left (fun acc row => if negb (nullrow row) then (acc + 1)%Z else acc)
            s acc
  = (acc + Z.of_nat (length (List.filter (fun row => negb (nullrow row)) s)))%Z.
Proof.
  revert acc. induction s as [|row s IH]; intros acc; simpl.
  - lia.
  - rewrite IH. destruct (negb (nullrow row)); simpl length; lia.
Qed.

Lemma call_count_mismatch (sol : Solution) (v : list K) :
  Solution_bool sol = true -> Z.of_nat (length v) <> varargs sol ->
  Solution_call sol v = Raise (ValueError_count (varargs sol) (length v)).
Proof.
  intros Hsolv Hlen. unfold Solution_call.
  unfold Solution_bool in Hsolv. rewrite Hsolv.
  apply Z.eqb_neq in Hlen. rewrite Hlen. reflexivity.
Qed.

(** ** C3 *)

(** C3: a Solution is falsy exactly when some row of the reduced matrix
    has all its coefficients null and a right-hand side that is not
    null, and querying a falsy Solution raises "Has no solution",
    whatever the arguments. *)
Theorem Solution_falsy_iff_contradiction (cols : nat) (s : matrix) :
  has_cols (S cols) s ->
  (Solution_bool (Solution_init s) = false <-> Exists contradiction_row s)
  /\ (Solution_bool (Solution_init s) = false ->
      forall v, Solution_call (Solution_init s) v = Raise ValueError_no_solution).
Proof.
  intros _. split.
  - apply solvable_false_iff.
  - intros Hfalse v. unfold Solution_call.
    unfold Solution_bool in Hfalse. rewrite Hfalse. reflexivity.
Qed.

(** ** C4 *)

(** C4: for an array with at least one row and n + 1 columns, the
    variable count is n; the free-parameter count is n minus the number
    of rows that are not entirely null; [exact] holds exactly when that
    count is 0; and a solvable Solution called with another number of
    arguments raises the count-mismatch error, which names the
    free-parameter count and the number of arguments given. *)
Theorem Solution_varargs_and_count_mismatch (n : nat) (s : matrix) :
  s <> [] -> has_cols (S n) s ->
  let sol := Solution_init s in
  let rows_not_null :=
    length (List.filter (fun row => negb (forallb null row)) s) in
  let free := (Z.of_nat n - Z.of_nat rows_not_null)%Z in
  varcount sol = Z.of_nat n
  /\ varargs sol = free
  /\ (exact sol = true <-> free = 0%Z)
  /\ (Solution_bool sol = true ->
      forall v, Z.of_nat (length v) <> free ->
        Solution_call sol v = Raise (ValueError_count free (length v))).
Proof.
  intros Hne Hcols sol rows_not_null free.
  assert (Hvc : varcount sol = Z.of_nat n).
  { destruct s as [|row s]; [contradiction|].
    inversion Hcols as [|? ? Hrow Hrest]; subst.
    unfold sol, Solution_init, shape1. cbn [varcount hd]. rewrite Hrow. lia. }
  assert (Hva : varargs sol = free).
  { unfold sol, Solution_init in *. cbn [varargs varcount] in *.
    rewrite unique_equations_acc, Hvc. unfold free, rows_not_null, nullrow.
    lia. }
  split; [exact Hvc|]. split; [exact Hva|]. split.
  - rewrite <- Hva. unfold sol, Solution_init. cbn [exact varargs].
    apply Z.eqb_eq.
  - intros Hsolv v Hlen. rewrite <- Hva in Hlen |- *.
    apply call_count_mismatch; assumption.
Qed.

End SolverFacts.

(** ** The three loops of [Solution.__call__] *)

Section ResolutionOrder.
Context {K : Type} `{Scalar K}.

Lemma count_acc {A} (f : A -> bool) (l : list A) (c : nat) :
  fold_left (fun c i => if f i then S c else c) l c
  = (c + length (List.filter f l))%nat.
Proof.
  revert c. induction l as [|a l IH]; intros c; simpl.
  - lia.
  - rewrite IH. destruct (f a); simpl; lia.
Qed.

Lemma nonnull_from_filter (cs : list K) (i : nat) :
  length (nonnull_from cs i)
  = length (List.filter (fun c => negb (null c)) cs).
Proof.
  revert i. induction cs as [|c cs IH]; intros i; simpl.
  - reflexivity.
  - destruct (null c); simpl; rewrite IH; reflexivity.
Qed.

Lemma count_nonnull (cs : list K) :
  count (fun c => negb (null c)) cs = length (nonnull_from cs 0).
Proof.
  unfold count. rewrite count_acc, (nonnull_from_filter cs 0). reflexivity.
Qed.

Lemma index_from_nonnull (cs : list K) (i k : nat) (ks : list nat) :
  nonnull_from cs i = k :: ks ->
  index_from (fun c => negb (null c)) cs i = Ok k.
Proof.
  revert i. induction cs as [|c cs IH]; intros i; simpl.
  - discriminate.
  - destruct (null c); simpl.
    + apply IH.
    + intros Heq. inversion Heq. reflexivity.
Qed.

Lemma nonnull_from_bound (cs : list K) (i k : nat) :
  k ∈ nonnull_from cs i -> (i <= k < i + length cs)%nat.
Proof.
  revert i. induction cs as [|c cs IH]; intros i; simpl.
  - intros Hin. inversion Hin.
  - destruct (null c).
    + intros Hin. apply IH in Hin. lia.
    + intros Hin. apply elem_of_cons in Hin as [-> | Hin].
      * lia.
      * apply IH in Hin. lia.
Qed.

Lemma length_coeffs (row : list K) (n : nat) :
  length row = S n -> length (coeffs row) = n.
Proof.
  intros Hlen. unfold coeffs.
  destruct (exists_last (l := row)) as (l & a & ->).
  - intros ->. discriminate.
  - rewrite removelast_last. rewrite length_app in Hlen. simpl in Hlen. lia.
Qed.

Lemma single_at_bound (row : list K) (n k : nat) :
  length row = S n -> single_at row k -> (k < n)%nat.
Proof.
  intros Hlen Hk. unfold single_at in Hk.
  assert (Hin : k ∈ nonnull_from (coeffs row) 0) by (rewrite Hk; left).
  apply nonnull_from_bound in Hin. rewrite (length_coeffs row n Hlen) in Hin.
  lia.
Qed.

Lemma list_get_entry (row : list K) (k : nat) :
  (k < length row)%nat -> list_get row k = Ok (entry row k).
Proof.
  intros Hk. unfold list_get, entry.
  destruct (lookup_lt_is_Some_2 row k Hk) as [a ->]. reflexivity.
Qed.

Lemma classic_single (row : list K) :
  (exists k, single_at row k) \/ (forall k, ~ single_at row k).
Proof.
  unfold single_at.
  destruct (nonnull_from (coeffs row) 0) as [|k [|k' ks]].
  - right. intros k. discriminate.
  - left. exists k. reflexivity.
  - right. intros j. discriminate.
Qed.

(** One pass of the first loop. *)
Lemma scan_row_single (n : nat) (vals : list (option K)) (row : list K) (k : nat) :
  length row = S n -> length vals = n -> single_at row k ->
  scan_row vals row = Ok (<[k := Some (s_div (rhs row) (entry row k))]> vals).
Proof.
  intros Hrow Hvals Hk. unfold scan_row.
  rewrite count_nonnull. pose proof Hk as Hk'. unfold single_at in Hk'.
  rewrite Hk'. simpl Nat.eqb. cbv iota.
  unfold index. rewrite (index_from_nonnull _ _ _ _ Hk'). simpl.
  pose proof (single_at_bound row n k Hrow Hk) as Hlt.
  rewrite list_get_entry by lia. simpl.
  unfold list_assign. rewrite decide_True by lia. reflexivity.
Qed.

Lemma scan_row_other (vals : list (option K)) (row : list K) :
  (forall k, ~ single_at row k) -> scan_row vals row = Ok vals.
Proof.
  intros Hno. unfold scan_row. rewrite count_nonnull.
  destruct (nonnull_from (coeffs row) 0) as [|k [|k' ks]] eqn:Hpos; simpl.
  - reflexivity.
  - exfalso. apply (Hno k). exact Hpos.
  - reflexivity.
Qed.

Lemma single_at_unique (row : list K) (k k' : nat) :
  single_at row k -> single_at row k' -> k = k'.
Proof. unfold single_at. intros -> Heq. inversion Heq. reflexivity. Qed.

(** The first loop, from any starting list. *)
Lemma scan_lookup (n : nat) (rows : matrix) :
  has_cols (S n) rows ->
  forall vals, length vals = n ->
  exists vals', scan rows vals = Ok vals' /\ length vals' = n /\
    forall k, vals' !! k
      = (fun old => match fixed_by rows k with
                    | Some x => Some x
                    | None => old
                    end) <$> vals !! k.
Proof.
  induction 1 as [|row rows Hrow Hrows IH]; intros vals Hvals.
  - exists vals. split; [reflexivity|]. split; [assumption|].
    intros k. simpl. destruct (vals !! k); reflexivity.
  - simpl scan.
    destruct (classic_single row) as [[k Hk] | Hno].
    + rewrite (scan_row_single n vals row k Hrow Hvals Hk). simpl.
      destruct (IH (<[k := Some (s_div (rhs row) (entry row k))]> vals))
        as (vals' & Hscan & Hlen & Hlook).
      { rewrite length_insert. assumption. }
      exists vals'. split; [exact Hscan|]. split; [exact Hlen|].
      intros j. rewrite Hlook. simpl fixed_by.
      destruct (decide (k = j)) as [<- | Hne].
      * rewrite list_lookup_insert_eq
          by (rewrite Hvals; eapply single_at_bound; eassumption).
        destruct (lookup_lt_is_Some_2 vals k) as [old ->].
        { rewrite Hvals. eapply single_at_bound; eassumption. }
        simpl. destruct (fixed_by rows k); [reflexivity|].
        rewrite decide_True by assumption. reflexivity.
      * rewrite list_lookup_insert_ne by assumption.
        destruct (vals !! j) as [old|]; simpl; [|reflexivity].
        destruct (fixed_by rows j); [reflexivity|].
        rewrite decide_False; [reflexivity|].
        intros Hj. apply Hne. eapply single_at_unique; eassumption.
    + rewrite (scan_row_other vals row Hno). simpl.
      destruct (IH vals Hvals) as (vals' & Hscan & Hlen & Hlook).
      exists vals'. split; [exact Hscan|]. split; [exact Hlen|].
      intros j. rewrite Hlook. simpl fixed_by.
      destruct (vals !! j) as [old|]; simpl; [|reflexivity].
      destruct (fixed_by rows j); [reflexivity|].
      rewrite decide_False by apply Hno. reflexivity.
Qed.

(** The second loop. *)
Lemma unresolved_below_insert (i j : nat) (x : option K) (vals : list (option K)) :
  (i <= j)%nat ->
  unresolved_below i (<[j := x]> vals) = unresolved_below i vals.
Proof.
  intros Hij. unfold unresolved_below. apply filter_ext_in.
  intros a Ha. apply in_seq in Ha. unfold is_unresolved.
  rewrite list_lookup_insert_ne by lia. reflexivity.
Qed.

Lemma unresolved_below_S (i : nat) (vals : list (option K)) :
  unresolved_below (S i) vals
  = unresolved_below i vals ++ (if is_unresolved vals i then [i] else []).
Proof.
  unfold unresolved_below. rewrite seq_S, List.filter_app. simpl.
  destruct (is_unresolved vals i); reflexivity.
Qed.

Lemma fill_assign_all (i : nat) :
  forall (stack : list K) (vals : list (option K)),
  fill i stack vals
  = assign_all vals (zip (rev (unresolved_below i vals)) stack).
Proof.
  induction i as [|i IH]; intros stack vals.
  - reflexivity.
  - simpl fill. destruct stack as [|x stack].
    + rewrite zip_with_nil_r. reflexivity.
    + rewrite unresolved_below_S. unfold is_unresolved.
      destruct (vals !! i) as [[y|]|] eqn:Hi.
      * rewrite app_nil_r. apply IH.
      * rewrite rev_app_distr. simpl. unfold assign_all at 1. simpl.
        rewrite IH, unresolved_below_insert by lia. reflexivity.
      * rewrite app_nil_r. apply IH.
Qed.

Lemma fill_is_fill_from_right (vals : list (option K)) (v : list K) :
  fill (length vals) (rev v) vals = fill_from_right vals v.
Proof. apply fill_assign_all. Qed.

Lemma length_assign_all (ixs : list (nat * K)) (vals : list (option K)) :
  length (assign_all vals ixs) = length vals.
Proof.
  revert vals. induction ixs as [|ix ixs IH]; intros vals; simpl.
  - reflexivity.
  - unfold assign_all in *. simpl. rewrite IH, length_insert. reflexivity.
Qed.

(** The third loop. *)
Lemma backsubst_rev (rows : matrix) (vals : list (option K)) :
  backsubst (rev rows) vals = backsubst_rows rows vals.
Proof.
  unfold backsubst_rows. revert vals.
  induction rows as [|row rows IH] using rev_ind; intros vals.
  - reflexivity.
  - rewrite rev_app_distr, foldr_app. simpl.
    destruct (backsubst_row vals row) as [vals'|e] eqn:Hrow.
    + simpl. apply IH.
    + simpl. clear. induction rows as [|r rows IH]; [reflexivity|].
      simpl. rewrite <- IH. reflexivity.
Qed.

Lemma list_assign_length {A} (l l' : list A) (i : nat) (a : A) :
  list_assign l i a = Ok l' -> length l' = length l.
Proof.
  unfold list_assign. destruct (decide (i < length l)%nat); [|discriminate].
  intros Heq. inversion Heq. apply length_insert.
Qed.

Lemma backsubst_row_length (row : list K) (vals vals' : list (option K)) :
  backsubst_row vals row = Ok vals' -> length vals' = length vals.
Proof.
  unfold backsubst_row. destruct (nullrow row).
  - intros Heq. inversion Heq. reflexivity.
  - destruct (sum_terms _ _ _ _) as [sm|e]; simpl; [|discriminate].
    destruct (list_get _ _) as [rt|e]; simpl; [|discriminate].
    apply list_assign_length.
Qed.

Lemma backsubst_length (rrows : matrix) :
  forall vals vals', backsubst rrows vals = Ok vals' ->
  length vals' = length vals.
Proof.
  induction rrows as [|row rrows IH]; intros vals vals'; simpl.
  - intros Heq. inversion Heq. reflexivity.
  - destruct (backsubst_row vals row) as [vals1|e] eqn:Hrow; simpl;
      [|discriminate].
    intros Hrest. rewrite (IH _ _ Hrest). eapply backsubst_row_length, Hrow.
Qed.

Lemma scan_from_nothing (n : nat) (rows : matrix) :
  has_cols (S n) rows ->
  scan rows (replicate n None) = Ok (fixed_by_single_rows n rows).
Proof.
  intros Hcols.
  destruct (scan_lookup n rows Hcols (replicate n None))
    as (vals' & Hscan & Hlen & Hlook).
  { apply length_replicate. }
  rewrite Hscan. f_equal. apply list_eq. intros k.
  rewrite Hlook. unfold fixed_by_single_rows.
  change (map (fixed_by rows)) with (fmap (M := list) (fixed_by rows)).
  rewrite list_lookup_fmap.
  destruct (decide (k < n)%nat) as [Hk | Hk].
  - rewrite lookup_replicate_2, lookup_seq_lt by assumption. simpl.
    destruct (fixed_by rows k); reflexivity.
  - rewrite (proj1 (lookup_replicate_None n None k)) by lia.
    rewrite lookup_seq_ge by lia. reflexivity.
Qed.

Lemma length_fixed_by_single_rows (n : nat) (rows : matrix) :
  length (fixed_by_single_rows n rows) = n.
Proof. unfold fixed_by_single_rows. rewrite length_map, length_seq. reflexivity. Qed.

Lemma varcount_init (n : nat) (s : matrix) :
  s <> [] -> has_cols (S n) s ->
  Z.to_nat (varcount (Solution_init s)) = n.
Proof.
  intros Hne Hcols. destruct s as [|row s]; [contradiction|].
  inversion Hcols as [|? ? Hrow Hrest]; subst.
  unfold Solution_init, shape1. simpl. rewrite Hrow. lia.
Qed.

(** The sum of the third loop, when the variables it reads are resolved. *)
Lemma sum_terms_resolved (row : list K) (vals : list (option K)) (xs : list K) :
  forall (js : list nat) (acc : K),
  Forall (fun j => (j < length row)%nat) js ->
  Forall2 (fun j x => vals !! j = Some (Some x)) js xs ->
  sum_terms row vals js acc
  = Ok (fold_left (fun a jx => s_add a (s_mul (s_mul (s_ofQ (-1)) (entry row jx.1)) jx.2))
                  (zip js xs) acc).
Proof.
  intros js acc Hjs Hxs. revert acc Hjs.
  induction Hxs as [|j x js xs Hj Hrest IH]; intros acc Hjs.
  - reflexivity.
  - inversion Hjs as [|? ? Hlt Hjs']; subst.
    simpl sum_terms. unfold term.
    rewrite (list_get_entry row j Hlt). cbn [mbind result_bind].
    unfold list_get. rewrite Hj. cbn [mbind result_bind].
    rewrite IH by assumption. reflexivity.
Qed.

(** A row that is not entirely null, whose variables right of the
    leading one are resolved to [xs]: the leading variable becomes
    (sum of -1 * coefficient * value  +  RHS) / leading coefficient. *)
Lemma backsubst_row_solves_leading (n : nat) (row : list K)
  (vals : list (option K)) (xs : list K) :
  length row = S n -> length vals = n ->
  nullrow row = false ->
  (first_nonzero row < n)%nat ->
  Forall2 (fun j x => vals !! j = Some (Some x))
          (seq (S (first_nonzero row)) (n - S (first_nonzero row))) xs ->
  backsubst_row vals row
  = Ok (<[first_nonzero row :=
          Some (s_div
                  (s_add
                     (fold_left
                        (fun a jx =>
                           s_add a (s_mul (s_mul (s_ofQ (-1)) (entry row jx.1))
                                          jx.2))
                        (zip (seq (S (first_nonzero row))
                                  (n - S (first_nonzero row))) xs)
                        (s_ofQ 0))
                     (rhs row))
                  (entry row (first_nonzero row)))]> vals).
Proof.
  intros Hrow Hvals Hnn Ht Hxs. unfold backsubst_row. rewrite Hnn.
  replace (length row - 1 - S (first_nonzero row))%nat
    with (n - S (first_nonzero row))%nat by lia.
  rewrite (sum_terms_resolved row vals xs) by
    (try assumption; apply Forall_forall; intros j Hj;
     apply elem_of_seq in Hj; lia).
  cbn [mbind result_bind].
  rewrite list_get_entry by lia. cbn [mbind result_bind].
  unfold list_assign. rewrite decide_True by lia. reflexivity.
Qed.

End ResolutionOrder.

(** ** The third step as the specification words it

    The code adds the terms [-1 * coeff_j * val_j] to 0 and then adds the
    right-hand side; the specification subtracts the sum of the terms
    [coeff_j * val_j] from the right-hand side.  The two agree in an
    arithmetic where negation can be moved through the sum; the three
    laws below say so, and hold of the rationals ([Q_neg_term],
    [Q_neg_zero], [Q_neg_plus]). *)

Section ThirdStep.
Context {K : Type} `{Scalar K}.
Hypothesis neg_term : forall a r x : K,
  s_add (s_opp a) (s_mul (s_mul (s_ofQ (-1)) r) x)
  = s_opp (s_add a (s_mul r x)).
Hypothesis neg_zero : s_opp (s_ofQ 0) = (s_ofQ 0 : K).
Hypothesis neg_plus : forall a b : K, s_add (s_opp a) b = s_sub b a.

(** The leading unknown is the position [first_nonzero] finds. *)
Lemma leading_first_nonzero (d : K) (cs : list K) (k : nat) :
  match head (nonnull_from cs k) with
  | Some l =>
      first_nonzero_from (cs ++ [d]) k = l
      /\ (k <= l < k + length cs)%nat
      /\ forallb null cs = false
  | None => forallb null cs = true
  end.
Proof.
  revert k. induction cs as [|c cs IH]; intros k.
  - reflexivity.
  - cbn [nonnull_from app first_nonzero_from forallb length].
    destruct (null c) eqn:Hc; cbn [negb andb head].
    + specialize (IH (S k)).
      destruct (head (nonnull_from cs (S k))) as [l|].
      * destruct IH as (Hl & Hb & Hall). repeat split; [exact Hl|lia|lia|exact Hall].
      * exact IH.
    + repeat split; lia.
Qed.

Lemma sum_terms_unresolved (row : list K) (vals : list (option K)) :
  forall (js : list nat) (acc : K),
  Forall (fun j => (j < length row)%nat /\ (j < length vals)%nat) js ->
  mapM (resolved vals) js = None ->
  sum_terms row vals js acc = Raise TypeError.
Proof.
  induction js as [|j js IH]; intros acc Hjs Hnone; [discriminate|].
  inversion Hjs as [|? ? [Hr Hv] Hjs']; subst.
  cbn [sum_terms]. unfold term.
  rewrite (list_get_entry row j Hr). cbn [mbind result_bind].
  unfold list_get. cbn [mapM] in Hnone.
  destruct (lookup_lt_is_Some_2 vals j Hv) as [vj Hvj]. rewrite Hvj.
  cbn [mbind result_bind]. destruct vj as [x|]; [|reflexivity].
  cbn [mbind result_bind]. apply IH; [exact Hjs'|].
  assert (Hres : resolved vals j = Some x)
    by (unfold resolved; rewrite Hvj; reflexivity).
  rewrite Hres in Hnone. cbn [mbind option_bind] in Hnone.
  change (mapM (resolved vals) js ≫= (fun k => mret (x :: k)) = None)
    in Hnone.
  destruct (mapM (resolved vals) js); [discriminate | reflexivity].
Qed.

Lemma resolved_lookup (vals : list (option K)) (js : list nat) (xs : list K) :
  mapM (resolved vals) js = Some xs ->
  Forall2 (fun j x => vals !! j = Some (Some x)) js xs.
Proof.
  intros Hm. apply mapM_Some_1 in Hm.
  eapply Forall2_impl; [exact Hm|].
  intros j x. unfold resolved.
  destruct (vals !! j) as [[y|]|]; intros Heq; inversion Heq; reflexivity.
Qed.

(** Negation moves through the sum of the code. *)
Lemma negated_sum (row : list K) (jxs : list (nat * K)) (a : K) :
  fold_left (fun a jx =>
               s_add a (s_mul (s_mul (s_ofQ (-1)) (entry row jx.1)) jx.2))
            jxs (s_opp a)
  = s_opp (fold_left (fun a jx => s_add a (s_mul (entry row jx.1) jx.2))
                     jxs a).
Proof.
  revert a. induction jxs as [|[j x] jxs IH]; intros a; [reflexivity|].
  cbn [fold_left fst snd]. rewrite neg_term. apply IH.
Qed.

Lemma fold_left_zip_with (F : nat -> K -> K) (js : list nat) (xs : list K)
  (a : K) :
  fold_left (fun a jx => s_add a (F jx.1 jx.2)) (zip js xs) a
  = fold_left s_add (zip_with F js xs) a.
Proof.
  revert xs a. induction js as [|j js IH]; intros xs a; [reflexivity|].
  destruct xs as [|x xs]; [reflexivity|]. cbn [zip zip_with fold_left fst snd].
  apply IH.
Qed.

(** What the code computes for a leading variable is the value of the
    specification's formula. *)
Lemma code_sum_is_formula (row : list K) (js : list nat) (xs : list K) :
  s_add (fold_left (fun a jx =>
                      s_add a (s_mul (s_mul (s_ofQ (-1)) (entry row jx.1))
                                     jx.2))
                   (zip js xs) (s_ofQ 0))
        (rhs row)
  = s_sub (rhs row)
          (sigma (zip_with (fun j x => s_mul (entry row j) x) js xs)).
Proof.
  rewrite <- neg_zero at 1. rewrite negated_sum, neg_plus.
  unfold sigma.
  rewrite (fold_left_zip_with (fun j x => s_mul (entry row j) x)).
  reflexivity.
Qed.

(** The body of the third loop does to a row what the specification
    says, for a row of a solvable system. *)
Lemma backsubst_row_is_solve_leading (n : nat) (row : list K)
  (vals : list (option K)) :
  length row = S n -> length vals = n -> contradiction row = false ->
  backsubst_row vals row = solve_leading row vals.
Proof.
  intros Hrow Hvals Hcon.
  destruct (exists_last (l := row)) as (cs & d & ->).
  { intros ->. discriminate. }
  rewrite length_app in Hrow. cbn [length] in Hrow.
  assert (Hcs : length cs = n) by lia.
  unfold contradiction, coeffs, rhs in Hcon.
  rewrite removelast_last, last_last in Hcon.
  unfold solve_leading, leading, backsubst_row, nullrow, first_nonzero, coeffs.
  rewrite removelast_last, forallb_app. cbn [forallb].
  rewrite andb_true_r.
  pose proof (leading_first_nonzero d cs 0) as Hlead.
  destruct (head (nonnull_from cs 0)) as [l|].
  - destruct Hlead as (Hfirst & Hl & Hall). rewrite Hall. cbn [andb].
    rewrite Hfirst, length_app. cbn [length].
    replace (length cs + 1 - 1 - S l)%nat with (length vals - S l)%nat by lia.
    destruct (mapM (resolved vals) (seq (S l) (length vals - S l)))
      as [xs|] eqn:Hxs.
    + rewrite (sum_terms_resolved (cs ++ [d]) vals xs).
      2:{ apply Forall_forall. intros j Hj. apply elem_of_seq in Hj.
          rewrite length_app. cbn [length]. lia. }
      2:{ apply resolved_lookup. exact Hxs. }
      cbn [mbind result_bind].
      rewrite list_get_entry by (rewrite length_app; cbn [length]; lia).
      cbn [mbind result_bind]. unfold list_assign.
      rewrite decide_True by lia.
      rewrite code_sum_is_formula. reflexivity.
    + rewrite (sum_terms_unresolved (cs ++ [d]) vals); [reflexivity| |exact Hxs].
      apply Forall_forall. intros j Hj. apply elem_of_seq in Hj.
      rewrite length_app. cbn [length]. lia.
  - rewrite Hlead in Hcon |- *. cbn [andb] in Hcon |- *.
    apply negb_false_iff in Hcon. rewrite Hcon. reflexivity.
Qed.

Lemma backsubst_rows_is_back_substitute (n : nat) (rows : matrix) :
  Forall (fun row => length row = S n /\ contradiction row = false) rows ->
  forall vals, length vals = n ->
  backsubst_rows rows vals = back_substitute rows vals.
Proof.
  induction 1 as [|row rows [Hrow Hcon] Hrest IH]; intros vals Hvals;
    [reflexivity|].
  unfold backsubst_rows, back_substitute. cbn [foldr].
  fold (backsubst_rows rows vals). fold (back_substitute rows vals).
  rewrite <- (IH vals Hvals).
  destruct (backsubst_rows rows vals) as [vals'|e] eqn:Hback; [|reflexivity].
  cbn [mbind result_bind].
  apply (backsubst_row_is_solve_leading n); try assumption.
  rewrite <- backsubst_rev in Hback. apply backsubst_length in Hback.
  rewrite Hback. exact Hvals.
Qed.

(** ** C2 *)


End ThirdStep.


(** * The solver on rational inputs *)

Section SolverOverQ.
Local Open Scope Q_scope.

(** The three laws of the third step hold of the rationals. *)
Lemma Q_neg_term (a r x : Q) : - a + (-1 * r) * x = - (a + r * x).
Proof.
  destruct a as [an ad], r as [rn rd], x as [xn xd].
  unfold Qplus, Qmult, Qopp. cbn [Qnum Qden]. f_equal.
  rewrite !Pos2Z.inj_mul. ring.
Qed.

Lemma Q_neg_zero : - 0 = 0.
Proof. reflexivity. Qed.

Lemma Q_neg_plus (a b : Q) : - a + b = b - a.
Proof.
  destruct a as [an ad], b as [bn bd].
  unfold Qminus, Qplus, Qopp. cbn [Qnum Qden]. f_equal.
  - ring.
  - apply Pos.mul_comm.
Qed.

(** ** C1 *)

(** C1 fails on the consistent system 0x + 1y + 1z = 5: the Solution has
    two free parameters, is queried with two values, and returns a tuple
    whose first entry is None, which is no assignment to x. *)
Theorem single_row_query_leaves_variable_unresolved :
  let m := [[0; 1; 1; 5]] in
  consistent m
  /\ Solution_bool (solve m) = true
  /\ varargs (solve m) = 2%Z
  /\ Solution_call (solve m) [1; 1] = Ok [None; Some 4; Some 1]
  /\ forall t, Solution_call (solve m) [1; 1] = Ok t -> ~ solves m t.
Proof.
  assert (Hcall : Solution_call (solve [[0; 1; 1; 5]]) [1; 1]
                  = Ok [None; Some 4; Some 1]) by (vm_compute; reflexivity).
  cbv zeta. split; [|split; [|split; [|split]]].
  - exists [0; 5; 0]. split; [reflexivity|].
    constructor; [|constructor]. vm_compute. reflexivity.
  - vm_compute. reflexivity.
  - vm_compute. reflexivity.
  - exact Hcall.
  - intros t Ht. rewrite Hcall in Ht. inversion Ht; subst.
    intros (xs & Hxs & _). destruct xs; discriminate.
Qed.


End SolverOverQ.

(** * Small systems, row by row *)

Section SmallSystems.
Context {K : Type} `{Scalar K}.
Hypothesis Hnull0 : null (s_ofQ 0) = true.
#[local] Arguments null : simpl never.

Ltac step_nulls :=
  repeat (progress (unfold scan_row, backsubst_row, nullrow, count, index, first_nonzero, list_get, list_assign, term, coeffs, rhs; simpl; rewrite ?Hnull0;
    repeat match goal with
    | Hn : null ?a = _ |- context [null ?a] => rewrite Hn
    end)).

Lemma call_two_rows (c0 c1 c2 c3 e f g v : K) :
  null c0 = false ->
  nullrow [s_ofQ 0; e; f; g] = false ->
  Solution_bool (Solution_init [[c0; c1; c2; c3]; [s_ofQ 0; e; f; g]]) = true ->
  varargs (Solution_init [[c0; c1; c2; c3]; [s_ofQ 0; e; f; g]]) = 1%Z /\
  exists X Y Z,
    Solution_call (Solution_init [[c0; c1; c2; c3]; [s_ofQ 0; e; f; g]]) [v]
    = Ok [Some X; Some Y; Some Z]
    /\ ((null e = false /\ Z = v) \/ (null e = true /\ Y = v)).
Proof.
  intros Hc0 Hr1 Hsolv.
  unfold Solution_bool, Solution_init in Hsolv. cbn in Hsolv.
  unfold contradiction in Hsolv. cbn in Hsolv.
  cbn in Hr1. rewrite Hnull0 in Hr1, Hsolv. rewrite Hc0 in Hsolv.
  destruct (null e) eqn:He, (null f) eqn:Hf, (null g) eqn:Hg;
    try discriminate;
    destruct (null c1) eqn:Hc1, (null c2) eqn:Hc2, (null c3) eqn:Hc3;
    (split; [ unfold Solution_init; step_nulls; reflexivity
            | unfold Solution_call, Solution_init, contradiction, scan_row, backsubst_row;
              step_nulls ]).
  all: try (eexists _, _, _; split; [reflexivity | (left; split; reflexivity) || (right; split; reflexivity) ]).
Qed.

Lemma init_rank_one (up m r x1 y1 x2 y2 : K) :
  null up = false ->
  null x1 = true -> null y1 = true -> null x2 = true -> null y2 = true ->
  let sol := Solution_init [[up; m; r]; [s_ofQ 0; x1; y1]; [s_ofQ 0; x2; y2]] in
  Solution_bool sol = true /\ varargs sol = 1%Z.
Proof.
  intros Hup Hx1 Hy1 Hx2 Hy2.
  unfold Solution_bool, Solution_init, contradiction, nullrow, coeffs, rhs.
  cbn [_solvable varargs existsb forallb removelast List.last fold_left
       shape1 hd length].
  rewrite Hup, Hx1, Hy1, Hx2, Hy2, Hnull0. split; reflexivity.
Qed.
End SmallSystems.

(** * Elimination on rational matrices *)

Section EliminationOverQ.
Local Open Scope Q_scope.

Lemma Q_null_of_zero (q : Q) : Qeq_bool q 0 = true -> null q = true.
Proof.
  intros Hq. apply Qeq_bool_iff in Hq.
  unfold null, tolerance. simpl. apply negb_true_iff.
  destruct (Qle_bool (1 # 10000000000) (Qabs q)) eqn:Hle; [|reflexivity].
  apply Qle_bool_iff in Hle. rewrite Hq in Hle. vm_compute in Hle.
  exfalso. apply Hle. reflexivity.
Qed.

Lemma coincident_params (a b : Line Q) :
  coincident a b ->
  exists k c : Q,
    (vx (dv b) == k * vx (dv a) /\ vy (dv b) == k * vy (dv a)
     /\ vz (dv b) == k * vz (dv a))
    /\ (vx (sv b) - vx (sv a) == c * vx (dv a)
        /\ vy (sv b) - vy (sv a) == c * vy (dv a)
        /\ vz (sv b) - vz (sv a) == c * vz (dv a)).
Proof.
  intros Hco.
  destruct a as [[sa1 sa2 sa3] [da1 da2 da3]], b as [[sb1 sb2 sb3] [db1 db2 db3]].
  unfold coincident, on_line in Hco. simpl in *.
  destruct (proj2 (Hco (mkVector sb1 sb2 sb3))) as (c & Hx & Hy & Hz).
  { exists 0. simpl. repeat split; ring. }
  destruct (proj2 (Hco (mkVector (sb1 + db1) (sb2 + db2) (sb3 + db3))))
    as (t & Hx' & Hy' & Hz').
  { exists 1. simpl. repeat split; ring. }
  simpl in *.
  exists (t - c), c.
  assert (Hsub : forall s d s' x y : Q,
             s == s' + x -> s + d == s' + y -> d == y - x /\ s - s' == x).
  { intros s d s' x y Hs Hsd. split.
    - assert (E : d == (s + d) - s) by ring. rewrite E, Hsd, Hs. ring.
    - rewrite Hs. ring. }
  destruct (Hsub _ _ _ _ _ Hx Hx') as [Hd1 Hs1].
  destruct (Hsub _ _ _ _ _ Hy Hy') as [Hd2 Hs2].
  destruct (Hsub _ _ _ _ _ Hz Hz') as [Hd3 Hs3].
  repeat split; try assumption.
  - rewrite Hd1. ring.
  - rewrite Hd2. ring.
  - rewrite Hd3. ring.
Qed.

Lemma null_false_ge (q : Q) : null q = false <-> (1 # 10000000000) <= Qabs q.
Proof.
  unfold null, tolerance. simpl. rewrite negb_false_iff. apply Qle_bool_iff.
Qed.

Lemma ltb_true (p q : Q) : negb (Qle_bool q p) = true <-> p < q.
Proof.
  rewrite negb_true_iff. split.
  - intros Hf. apply Qnot_le_lt. intros Hle. apply Qle_bool_iff in Hle. congruence.
  - intros Hlt. destruct (Qle_bool q p) eqn:E; [|reflexivity].
    apply Qle_bool_iff in E. Lqa.lra.
Qed.
Lemma ltb_false (p q : Q) : negb (Qle_bool q p) = false <-> q <= p.
Proof. rewrite negb_false_iff. apply Qle_bool_iff. Qed.

Lemma eqb0_false (q : Q) : (1 # 10000000000) <= Qabs q -> Qeq_bool q 0 = false.
Proof.
  intros Hq. destruct (Qeq_bool q 0) eqn:E; [|reflexivity].
  apply Qeq_bool_iff in E. rewrite E in Hq. vm_compute in Hq. exfalso. apply Hq. reflexivity.
Qed.


(** One step of the elimination, unfolded. *)
Lemma lu_steps_S (k j : nat) (r0 : list Q) (rest : list (list Q)) :
  lu_steps (S k) j (r0 :: rest)
  = let p := pivot_index j (r0 :: rest) in
    let rp := default r0 ((r0 :: rest) !! p) in
    if Qeq_bool (entry rp j) 0 then r0 :: lu_steps k (S j) rest
    else rp :: lu_steps k (S j)
                (map (eliminate j rp)
                     match p with O => rest | S p' => <[p' := r0]> rest end).
Proof. reflexivity. Qed.

(** The pivot search returns a row of largest magnitude in column [j]. *)
Lemma argmax_from_max (j : nat) (rows : list (list Q)) :
  forall (seen : list (list Q)) (best : nat) (bestv : Q),
  (best < length seen)%nat ->
  (exists rb, seen !! best = Some rb /\ bestv = Qabs (entry rb j)) ->
  Forall (fun r => Qabs (entry r j) <= bestv) seen ->
  let p := argmax_from j rows (length seen) best bestv in
  exists rp, (seen ++ rows) !! p = Some rp /\
    Forall (fun r => Qabs (entry r j) <= Qabs (entry rp j)) (seen ++ rows).
Proof.
  induction rows as [|r rows IH]; intros seen best bestv Hbest (rb & Hrb & Hv) Hall.
  - simpl. exists rb. rewrite app_nil_r. split; [assumption|]. subst bestv. assumption.
  - simpl argmax_from.
    change (s_abs (entry r j)) with (Qabs (entry r j)).
    change (s_ltb bestv (Qabs (entry r j)))
      with (negb (Qle_bool (Qabs (entry r j)) bestv)).
    destruct (negb (Qle_bool (Qabs (entry r j)) bestv)) eqn:Hcmp.
    + apply ltb_true in Hcmp.
      specialize (IH (seen ++ [r]) (length seen) (Qabs (entry r j))).
      rewrite length_app in IH. simpl in IH.
      replace (length seen + 1)%nat with (S (length seen)) in IH by lia.
      rewrite <- app_assoc in IH. simpl in IH. apply IH.
      * lia.
      * exists r. split; [|reflexivity].
        rewrite lookup_app_r by lia. rewrite Nat.sub_diag. reflexivity.
      * apply Forall_app. split.
        -- eapply Forall_impl; [exact Hall|]. simpl. intros r' Hr'. Lqa.lra.
        -- constructor; [|constructor]. Lqa.lra.
    + apply ltb_false in Hcmp.
      specialize (IH (seen ++ [r]) best bestv).
      rewrite length_app in IH. simpl in IH.
      replace (length seen + 1)%nat with (S (length seen)) in IH by lia.
      rewrite <- app_assoc in IH. simpl in IH. apply IH.
      * lia.
      * exists rb. split; [|assumption]. apply lookup_app_l_Some. assumption.
      * apply Forall_app. split; [assumption|].
        constructor; [|constructor]. assumption.
Qed.

Lemma pivot_index_max (j : nat) (r0 : list Q) (rest : list (list Q)) :
  exists rp, (r0 :: rest) !! pivot_index j (r0 :: rest) = Some rp /\
    Forall (fun r => Qabs (entry r j) <= Qabs (entry rp j)) (r0 :: rest).
Proof.
  unfold pivot_index.
  apply (argmax_from_max j rest [r0] 0%nat (s_abs (entry r0 j))).
  - simpl. lia.
  - exists r0. split; reflexivity.
  - constructor; [|constructor]. apply Qle_refl.
Qed.


Lemma eliminate_prop_row (k c : Q) (rp r : list Q) :
  prop_row k c rp -> prop_row k c r -> ~ entry rp 0 == 0 ->
  zero_row (eliminate 0 rp r).
Proof.
  intros (up & vp & wp & -> & Hvp & Hwp) (u & v & w & -> & Hv & Hw) Hup.
  change (entry [up; - vp; wp] 0) with up in Hup.
  exists (- v - u / up * - vp), (w - u / up * wp).
  split; [reflexivity|]. split.
  - rewrite Hv, Hvp. field. exact Hup.
  - rewrite Hw, Hwp. field. exact Hup.
Qed.

Lemma eqb0_true (q : Q) : q == 0 -> Qeq_bool q 0 = true.
Proof. apply Qeq_bool_iff. Qed.

Lemma lu_steps_zero_rows (z1 z2 : list Q) :
  zero_row z1 -> zero_row z2 -> lu_steps 2 1 [z1; z2] = [z1; z2].
Proof.
  intros (x1 & y1 & -> & Hx1 & Hy1) (x2 & y2 & -> & Hx2 & Hy2).
  rewrite lu_steps_S. cbv zeta.
  assert (Hp : Qeq_bool
                 (entry (default [0; x1; y1]
                           ([[0; x1; y1]; [0; x2; y2]]
                              !! pivot_index 1 [[0; x1; y1]; [0; x2; y2]])) 1) 0
               = true).
  { unfold pivot_index, argmax_from.
    destruct (s_ltb _ _); apply eqb0_true; assumption. }
  rewrite Hp. f_equal.
  rewrite lu_steps_S. cbv zeta.
  change (pivot_index 2 [[0; x2; y2]]) with 0%nat.
  change (entry (default [0; x2; y2] ([[0; x2; y2]] !! 0%nat)) 2) with y2.
  rewrite (eqb0_true _ Hy2). reflexivity.
Qed.

Lemma zero_row_nulls (z : list Q) :
  zero_row z -> exists x y, z = [0; x; y] /\ null x = true /\ null y = true.
Proof.
  intros (x & y & -> & Hx & Hy). exists x, y.
  split; [reflexivity|].
  split; apply Q_null_of_zero, eqb0_true; assumption.
Qed.

Lemma lu_U_rank_one (k c : Q) (R1 R2 R3 : list Q) :
  prop_row k c R1 -> prop_row k c R2 -> prop_row k c R3 ->
  nullrow [entry R1 0; entry R2 0; entry R3 0] = false ->
  exists up m r z1 z2,
    lu_U [R1; R2; R3] = [[up; m; r]; z1; z2]
    /\ null up = false /\ zero_row z1 /\ zero_row z2.
Proof.
  intros H1 H2 H3 Hnn.
  destruct (pivot_index_max 0 R1 [R2; R3]) as (rp & Hrp & Hmax).
  assert (Hnnp : null (entry rp 0) = false).
  { apply null_false_ge.
    inversion Hmax as [|? ? Hm1 Hmax']; subst.
    inversion Hmax' as [|? ? Hm2 Hmax'']; subst.
    inversion Hmax'' as [|? ? Hm3 _]; subst.
    unfold nullrow in Hnn. cbn [forallb] in Hnn.
    destruct (null (entry R1 0)) eqn:E1;
      [|apply null_false_ge in E1; Lqa.lra].
    destruct (null (entry R2 0)) eqn:E2;
      [|apply null_false_ge in E2; Lqa.lra].
    destruct (null (entry R3 0)) eqn:E3;
      [|apply null_false_ge in E3; Lqa.lra].
    discriminate. }
  assert (Hne : ~ entry rp 0 == 0).
  { intros Heq. apply eqb0_true, Q_null_of_zero in Heq. congruence. }
  assert (Heqb : Qeq_bool (entry rp 0) 0 = false).
  { destruct (Qeq_bool (entry rp 0) 0) eqn:E; [|reflexivity].
    apply Q_null_of_zero in E. congruence. }
  unfold lu_U.
  destruct H1 as (u1 & v1 & w1 & -> & Hv1 & Hw1).
  change (Nat.min _ _) with 3%nat.
  rewrite lu_steps_S. cbv zeta.
  destruct (pivot_index 0 [[u1; - v1; w1]; R2; R3]) as [|[|[|p]]] eqn:Hp;
    simpl in Hrp; try discriminate; inversion Hrp; subst rp;
    cbn [lookup list_lookup default from_option id]; unfold Datatypes.id;
    rewrite Heqb; cbn [map list_insert insert].
  - exists u1, (- v1), w1. eexists _, _. split.
    + f_equal. apply lu_steps_zero_rows.
      all: apply (eliminate_prop_row k c); try assumption;
        exists u1, v1, w1; repeat split; assumption.
    + split; [exact Hnnp|].
      split; apply (eliminate_prop_row k c); try assumption;
        exists u1, v1, w1; repeat split; assumption.
  - destruct H2 as (u2 & v2 & w2 & -> & Hv2 & Hw2).
    exists u2, (- v2), w2. eexists _, _. split.
    + f_equal. apply lu_steps_zero_rows.
      all: apply (eliminate_prop_row k c); try assumption;
        eexists _, _, _; repeat split; eassumption.
    + split; [exact Hnnp|].
      split; apply (eliminate_prop_row k c); try assumption;
        eexists _, _, _; repeat split; eassumption.
  - destruct H3 as (u3 & v3 & w3 & -> & Hv3 & Hw3).
    exists u3, (- v3), w3. eexists _, _. split.
    + f_equal. apply lu_steps_zero_rows.
      all: apply (eliminate_prop_row k c); try assumption;
        eexists _, _, _; repeat split; eassumption.
    + split; [exact Hnnp|].
      split; apply (eliminate_prop_row k c); try assumption;
        eexists _, _, _; repeat split; eassumption.
Qed.

Lemma lu_U_plane_system (a b : Plane Q) (r0 r1 : list Q) :
  lu_U (Plane_Plane_system a b) = [r0; r1] ->
  null (entry r0 0) = false ->
  exists c0 c1 c2 c3 e f g, r0 = [c0; c1; c2; c3] /\ r1 = [0; e; f; g].
Proof.
  destruct a as [[pa1 pa2 pa3] [a1 a2 a3]], b as [[pb1 pb2 pb3] [b1 b2 b3]].
  unfold Plane_Plane_system, lu_U. 
  cbn -[Qabs Qle_bool Qeq_bool Qplus Qmult Qminus Qdiv null].
  destruct (negb (Qle_bool (Qabs b1) (Qabs a1))) eqn:Hp;
    cbn -[Qabs Qle_bool Qeq_bool Qplus Qmult Qminus Qdiv null].
  - destruct (Qeq_bool b1 0) eqn:Hb1;
      cbn -[Qabs Qle_bool Qeq_bool Qplus Qmult Qminus Qdiv null].
    + exfalso. apply negb_true_iff in Hp.
      assert (Hle : Qle_bool (Qabs b1) (Qabs a1) = true).
      { apply Qle_bool_iff. apply Qeq_bool_iff in Hb1. rewrite Hb1.
        apply Qabs_nonneg. }
      congruence.
    + match goal with |- context [if ?c then _ else _] => destruct c end;
        intros Heq _; inversion Heq; subst;
        eexists _, _, _, _, _, _, _; split; reflexivity.
  - destruct (Qeq_bool a1 0) eqn:Ha1;
      cbn -[Qabs Qle_bool Qeq_bool Qplus Qmult Qminus Qdiv null].
    + destruct (Qeq_bool b2 0); intros Heq Hnn; inversion Heq; subst;
        change (entry _ 0) with a1 in Hnn;
        rewrite (Q_null_of_zero _ Ha1) in Hnn; discriminate.
    + match goal with |- context [if ?c then _ else _] => destruct c end;
        intros Heq _; inversion Heq; subst;
        eexists _, _, _, _, _, _, _; split; reflexivity.
Qed.

End EliminationOverQ.

(** * Intersections *)

Section IntersectionOverQ.
Local Open Scope Q_scope.

(** ** C5 *)

(** C5 fails on the planes y + z = 1 and y - z = 0, which meet in the
    line y = z = 1/2.  The system of the two implicit equations is
    consistent; its first column is zero, so the elimination leaves both
    rows as they are and the Solution has one free parameter.  Queried
    with 1 and with 2, it assigns the value to z, solves y from the
    second row and again from the first, and never assigns x: both
    tuples hold None, and no Point, hence no Line, is built from them. *)
Theorem plane_plane_intersection_loses_a_variable :
  let a := mkPlane (mkPoint 0 1 0) (mkVector 0 1 1) in
  let b := mkPlane (mkPoint 0 0 0) (mkVector 0 1 (-1)) in
  let m := Plane_Plane_system a b in
  m = [[0; 1; 1; 1]; [0; 1; -1; 0]]
  /\ consistent m
  /\ lu_U m = m
  /\ Solution_bool (solve m) = true
  /\ varargs (solve m) = 1%Z
  /\ Solution_call (solve m) [1] = Ok [None; Some 0; Some 1]
  /\ Solution_call (solve m) [2] = Ok [None; Some (-1); Some 2]
  /\ forall T : VectorTests Q,
       intersection (PyPlane a) (PyPlane b) = Raise TypeError.
Proof.
  cbv zeta. split; [|split; [|split; [|split; [|split; [|split; [|split]]]]]].
  - vm_compute. reflexivity.
  - exists [0; 1 # 2; 1 # 2]. split; [reflexivity|].
    constructor; [|constructor; [|constructor]]; vm_compute; reflexivity.
  - vm_compute. reflexivity.
  - vm_compute. reflexivity.
  - vm_compute. reflexivity.
  - vm_compute. reflexivity.
  - vm_compute. reflexivity.
  - intros T. vm_compute. reflexivity.
Qed.

(** Two descriptions of the plane x = 0: the system is consistent, yet
    it has two free parameters, and intersection, which queries the
    Solution with one value, raises the count-mismatch error. *)
Lemma coincident_planes_have_two_free_parameters :
  let a := mkPlane (mkPoint 0 0 0) (mkVector 1 0 0) in
  let b := mkPlane (mkPoint 0 1 1) (mkVector 2 0 0) in
  consistent (Plane_Plane_system a b)
  /\ Solution_bool (solve (Plane_Plane_system a b)) = true
  /\ varargs (solve (Plane_Plane_system a b)) = 2%Z
  /\ intersection (H0 := tolerance_tests) (PyPlane a) (PyPlane b)
     = Raise (ValueError_count 2 1).
Proof.
  cbv zeta. split; [|split; [|split]].
  - exists [0; 0; 0]. split; [reflexivity|].
    constructor; [|constructor; [|constructor]]; vm_compute; reflexivity.
  - vm_compute. reflexivity.
  - vm_compute. reflexivity.
  - vm_compute. reflexivity.
Qed.

(** Where the elimination does reach an echelon form, the code returns
    the Line: an unsolvable system gives None; when the reduced system
    is solvable, its first row starts with a non-null entry and its
    second row is not entirely null, there is exactly one free
    parameter, the Solution evaluated at 1 and at 2 gives two distinct
    points, and the Line through them is returned. *)
Lemma plane_plane_intersection_echelon (T : VectorTests Q) (a b : Plane Q) :
  let sol := solve (Plane_Plane_system a b) in
  (Solution_bool sol = false -> intersection (PyPlane a) (PyPlane b) = Ok PyNone)
  /\ (Solution_bool sol = true ->
      forall r0 r1, _s sol = [r0; r1] ->
      null (entry r0 0) = false -> nullrow r1 = false ->
      varargs sol = 1%Z /\
      exists t1 t2 p1 p2,
        Solution_call sol [1] = Ok t1 /\ Point_of_tuple t1 = Ok p1 /\
        Solution_call sol [2] = Ok t2 /\ Point_of_tuple t2 = Ok p2 /\
        Point_eq p1 p2 = false /\
        intersection (PyPlane a) (PyPlane b)
        = Ok (PyLine (mkLine (Point_pv p1)
                             (Vector_sub (Point_pv p2) (Point_pv p1))))).
Proof.
  intros sol. split.
  - intros Hfalse. unfold intersection. fold sol. rewrite Hfalse. reflexivity.
  - intros Htrue r0 r1 Hs Hr0 Hr1.
    destruct (lu_U_plane_system a b r0 r1 Hs Hr0)
      as (c0 & c1 & c2 & c3 & e & f & g & -> & ->).
    assert (Hsol : sol = Solution_init [[c0; c1; c2; c3]; [s_ofQ 0; e; f; g]]).
    { unfold sol, solve. change (_s sol) with (lu_U (Plane_Plane_system a b)) in Hs.
      rewrite Hs. reflexivity. }
    assert (Hnull0 : null (s_ofQ 0 : Q) = true) by reflexivity.
    rewrite Hsol in Htrue.
    destruct (call_two_rows Hnull0 c0 c1 c2 c3 e f g 1 Hr0 Hr1 Htrue)
      as (Hvar & X1 & Y1 & Z1 & Hcall1 & Hfree1).
    destruct (call_two_rows Hnull0 c0 c1 c2 c3 e f g 2 Hr0 Hr1 Htrue)
      as (_ & X2 & Y2 & Z2 & Hcall2 & Hfree2).
    rewrite <- Hsol in Hvar, Hcall1, Hcall2, Htrue.
    split; [exact Hvar|].
    exists [Some X1; Some Y1; Some Z1], [Some X2; Some Y2; Some Z2],
           (mkPoint X1 Y1 Z1), (mkPoint X2 Y2 Z2).
    split; [exact Hcall1|]. split; [reflexivity|].
    split; [exact Hcall2|]. split; [reflexivity|].
    split.
    + unfold Point_eq. simpl.
      destruct Hfree1 as [[He ->] | [He ->]], Hfree2 as [[He' ->] | [He' ->]];
        try congruence.
      * apply andb_false_r.
      * change (Qeq_bool 1 2) with false.
        rewrite andb_false_r. reflexivity.
    + unfold intersection. fold sol. rewrite Htrue. cbn [negb].
      change (s_ofQ 1) with 1. change (s_ofQ 2) with 2.
      rewrite Hcall1. cbn [mbind result_bind Point_of_tuple].
      rewrite Hcall2. reflexivity.
Qed.

(** ** C10 *)

(** C10 fails as stated on two coincident lines along the x axis whose
    direction (1e-11, 0, 0) is null in every component while their
    supports are 1e-9 apart: the only non-zero row of the reduced system
    has null coefficients and a non-null right-hand side, the Solution is
    falsy and intersection returns None. *)
Lemma tiny_direction_coincident_lines_meet_nowhere :
  let a := mkLine (mkVector 0 0 0) (mkVector (1 # 100000000000) 0 0) in
  let b := mkLine (mkVector (1 # 1000000000) 0 0) (mkVector (1 # 100000000000) 0 0) in
  coincident a b
  /\ Solution_bool (solve (Line_Line_system a b)) = false
  /\ intersection (H0 := tolerance_tests) (PyLine a) (PyLine b) = Ok PyNone.
Proof.
  cbv zeta. split; [|split].
  - intros [px py pz]. unfold on_line. simpl. split.
    + intros (t & Hx & Hy & Hz). exists (t - 100). repeat split; Lqa.lra.
    + intros (t & Hx & Hy & Hz). exists (t + 100). repeat split; Lqa.lra.
  - vm_compute. reflexivity.
  - vm_compute. reflexivity.
Qed.

(** With an elimination that does not round, coincident Lines whose
    direction has a component that is not null give a system of rank
    one: it is solvable with one free parameter, and intersection, which
    queries the Solution with no argument, raises the count-mismatch
    error. *)
Lemma coincident_lines_rank_one (T : VectorTests Q) (a b : Line Q) :
  coincident a b ->
  nullrow (Vector_list (dv a)) = false ->
  let sol := solve (Line_Line_system a b) in
  Solution_bool sol = true
  /\ varargs sol = 1%Z
  /\ intersection (PyLine a) (PyLine b) = Raise (ValueError_count 1 0).
Proof.
  intros Hco Hnn sol.
  destruct (coincident_params a b Hco)
    as (k & c & (Hd1 & Hd2 & Hd3) & (Hs1 & Hs2 & Hs3)).
  destruct (lu_U_rank_one k c
              [Vector_get (dv a) 0; - Vector_get (dv b) 0;
               Vector_get (sv b) 0 - Vector_get (sv a) 0]
              [Vector_get (dv a) 1; - Vector_get (dv b) 1;
               Vector_get (sv b) 1 - Vector_get (sv a) 1]
              [Vector_get (dv a) 2; - Vector_get (dv b) 2;
               Vector_get (sv b) 2 - Vector_get (sv a) 2])
    as (up & m & r & z1 & z2 & HU & Hup & Hz1 & Hz2).
  { eexists _, _, _. split; [reflexivity|]. split; assumption. }
  { eexists _, _, _. split; [reflexivity|]. split; assumption. }
  { eexists _, _, _. split; [reflexivity|]. split; assumption. }
  { exact Hnn. }
  destruct (zero_row_nulls z1 Hz1) as (x1 & y1 & -> & Hx1 & Hy1).
  destruct (zero_row_nulls z2 Hz2) as (x2 & y2 & -> & Hx2 & Hy2).
  assert (Hnull0 : null (s_ofQ 0 : Q) = true) by reflexivity.
  destruct (init_rank_one Hnull0 up m r x1 y1 x2 y2 Hup Hx1 Hy1 Hx2 Hy2)
    as [Hsolv Hvar].
  assert (Hsol : sol = Solution_init [[up; m; r]; [s_ofQ 0; x1; y1]; [s_ofQ 0; x2; y2]]).
  { unfold sol, solve, Line_Line_system. 
    change (@s_opp Q Q_Scalar) with Qopp. change (@s_sub Q Q_Scalar) with Qminus.
    rewrite HU. reflexivity. }
  rewrite <- Hsol in Hsolv, Hvar.
  split; [exact Hsolv|]. split; [exact Hvar|].
  unfold intersection. fold sol. rewrite Hsolv. cbn [negb].
  rewrite (call_count_mismatch sol [] Hsolv) by (rewrite Hvar; discriminate).
  rewrite Hvar. reflexivity.
Qed.

Lemma zero_entries (k c u v w : Q) :
  u == 0 -> v == k * u -> w == c * u ->
  Forall (fun q => q == 0) [u; - v; w].
Proof.
  intros Hu Hv Hw. rewrite Hu in Hv, Hw.
  repeat constructor; [exact Hu | rewrite Hv; ring | rewrite Hw; ring].
Qed.

(** C10 (as amended): for every pair of coincident Lines along a
    coordinate axis (two components of the direction are 0) whose
    direction has a component that is not null, two of the three rows of
    the Line/Line system are zero, the system is solvable with exactly
    one free parameter, and intersection, which queries the Solution
    with no argument, raises the count-mismatch error
    "Expected 1 values, got 0". *)
Theorem coincident_lines_count_mismatch (T : VectorTests Q) (a b : Line Q) :
  coincident a b ->
  axis_parallel (dv a) ->
  nullrow (Vector_list (dv a)) = false ->
  let sol := solve (Line_Line_system a b) in
  (exists r z1 z2,
     Line_Line_system a b ≡ₚ [r; z1; z2]
     /\ Forall (fun q => q == 0) z1 /\ Forall (fun q => q == 0) z2)
  /\ Solution_bool sol = true
  /\ varargs sol = 1%Z
  /\ intersection (PyLine a) (PyLine b) = Raise (ValueError_count 1 0).
Proof.
  intros Hco Hax Hnn sol. split.
  - destruct (coincident_params a b Hco)
      as (k & c & (Hd1 & Hd2 & Hd3) & (Hs1 & Hs2 & Hs3)).
    unfold Line_Line_system.
    cbn [Vector_get s_opp s_sub Q_Scalar].
    destruct Hax as [[Hy Hz] | [[Hx Hz] | [Hx Hy]]].
    + eexists _, _, _. split; [reflexivity|].
      split; eapply zero_entries; eassumption.
    + eexists _, _, _. split; [apply Permutation_swap|].
      split; eapply zero_entries; eassumption.
    + eexists _, _, _. split.
      { etransitivity; [apply perm_skip, Permutation_swap|].
        apply Permutation_swap. }
      split; eapply zero_entries; eassumption.
  - exact (coincident_lines_rank_one T a b Hco Hnn).
Qed.

End IntersectionOverQ.

(** * Distances *)

Section DistanceFacts.
Context {K : Type} `{Scalar K} `{MathLib K} `{VectorTests K}.

(** What the Line/Plane branch of [intersection] can return. *)
Lemma intersection_Line_Plane_cases (l : Line K) (e : Plane K) (o : pyobj K) :
  intersection_Line_Plane l e = Ok o ->
  o = PyLine l \/ o = PyNone \/ exists q, o = PyPoint q.
Proof.
  unfold intersection_Line_Plane.
  destruct (Plane_contains_line e l).
  - intros Heq. inversion Heq. left. reflexivity.
  - destruct (truthy _).
    + intros Heq. inversion Heq. right. left. reflexivity.
    + destruct (py_div _ _) as [mu|ex]; simpl; [|discriminate].
      intros Heq. inversion Heq. right. right. eexists. reflexivity.
Qed.

(** A line contained in the auxiliary plane through the point: the call
    repeats itself with the same arguments until the interpreter gives up. *)
Lemma distance_Point_Line_diverges (a : Point K) (b : Line K) :
  intersection (PyPlane (mkPlane a (dv b))) (PyLine b) = Ok (PyLine b) ->
  forall d, distance_rec d (PyPoint a) (PyLine b) = Raise RecursionError.
Proof.
  intros Hfoot d. induction d as [|d IH]; [reflexivity|].
  change (distance_rec (S d) (PyPoint a) (PyLine b))
    with (foot ← intersection (PyPlane (mkPlane a (dv b))) (PyLine b);
          distance_rec d (PyPoint a) foot).
  rewrite Hfoot. exact IH.
Qed.

Lemma distance_Point_Line_stable (a : Point K) (b : Line K) (d : nat) :
  (2 <= d)%nat ->
  distance_rec d (PyPoint a) (PyLine b)
  = distance_rec (S d) (PyPoint a) (PyLine b).
Proof.
  intros Hd. destruct d as [|[|d]]; try lia.
  change (distance_rec (S (S d)) (PyPoint a) (PyLine b))
    with (foot ← intersection (PyPlane (mkPlane a (dv b))) (PyLine b);
          distance_rec (S d) (PyPoint a) foot).
  change (distance_rec (S (S (S d))) (PyPoint a) (PyLine b))
    with (foot ← intersection (PyPlane (mkPlane a (dv b))) (PyLine b);
          distance_rec (S (S d)) (PyPoint a) foot).
  destruct (intersection (PyPlane (mkPlane a (dv b))) (PyLine b))
    as [foot|ex] eqn:Hfoot; [|reflexivity].
  cbn [mbind result_bind].
  pose proof Hfoot as Hcases. apply intersection_Line_Plane_cases in Hcases.
  destruct Hcases as [-> | [-> | [q ->]]].
  - rewrite !(distance_Point_Line_diverges a b Hfoot). reflexivity.
  - reflexivity.
  - reflexivity.
Qed.

Lemma distance_Point_Plane_stable (a : Point K) (b : Plane K) (d : nat) :
  (3 <= d)%nat ->
  distance_rec d (PyPoint a) (PyPlane b)
  = distance_rec (S d) (PyPoint a) (PyPlane b).
Proof.
  intros Hd. destruct d as [|d]; try lia.
  change (distance_rec (S d) (PyPoint a) (PyPlane b))
    with (foot ← intersection (PyLine (Line_of_point a (n b))) (PyPlane b);
          distance_rec d (PyPoint a) foot).
  change (distance_rec (S (S d)) (PyPoint a) (PyPlane b))
    with (foot ← intersection (PyLine (Line_of_point a (n b))) (PyPlane b);
          distance_rec (S d) (PyPoint a) foot).
  destruct (intersection (PyLine (Line_of_point a (n b))) (PyPlane b))
    as [foot|ex] eqn:Hfoot; [|reflexivity].
  cbn [mbind result_bind].
  apply intersection_Line_Plane_cases in Hfoot.
  destruct Hfoot as [-> | [-> | [q ->]]].
  - apply distance_Point_Line_stable. lia.
  - destruct d as [|d]; [lia|]. reflexivity.
  - destruct d as [|d]; [lia|]. reflexivity.
Qed.

Lemma distance_Line_Plane_stable (a : Line K) (b : Plane K) (d : nat) :
  (4 <= d)%nat ->
  distance_rec d (PyLine a) (PyPlane b)
  = distance_rec (S d) (PyLine a) (PyPlane b).
Proof.
  intros Hd. destruct d as [|d]; try lia.
  change (distance_rec (S d) (PyLine a) (PyPlane b))
    with (if truthy (parallel (PyLine a) (PyPlane b))
          then distance_rec d (PyPoint (Point_of_vector (sv a))) (PyPlane b)
          else Ok (PyNum (s_ofQ 0))).
  change (distance_rec (S (S d)) (PyLine a) (PyPlane b))
    with (if truthy (parallel (PyLine a) (PyPlane b))
          then distance_rec (S d) (PyPoint (Point_of_vector (sv a))) (PyPlane b)
          else Ok (PyNum (s_ofQ 0))).
  destruct (truthy _); [|reflexivity].
  apply distance_Point_Plane_stable. lia.
Qed.

End DistanceFacts.

Section DistanceOverR.
Context `{VectorTests R}.
Local Open Scope R_scope.

Lemma Vector_length_between (a b : Point R) :
  Vector_length (Vector_between a b) = Vector_length (Vector_between b a).
Proof.
  unfold Vector_length, Vector_between, Vector_dot. cbn.
  f_equal. ring.
Qed.

Lemma Vector_cross_swap_length (u v : Vector R) :
  Vector_length (Vector_cross v u) = Vector_length (Vector_cross u v).
Proof.
  unfold Vector_length, Vector_cross, Vector_dot. simpl. f_equal. ring.
Qed.

Lemma distance_Line_Line_sym (a b : Line R) (d : nat) :
  distance_rec (S d) (PyLine a) (PyLine b)
  = distance_rec (S d) (PyLine b) (PyLine a).
Proof.
  simpl distance_rec. unfold Vector_normalized.
  rewrite (Vector_cross_swap_length (dv a) (dv b)).
  set (len := Vector_length (Vector_cross (dv a) (dv b))).
  unfold py_div. simpl s_eqb.
  destruct (Reqb len (Q2R 0)); [reflexivity|].
  cbn [mbind result_bind]. do 2 f_equal.
  unfold Vector_dot, Vector_sub, Vector_cross. simpl.
  f_equal. unfold Rdiv. ring.
Qed.

(** ** C7 *)

(** C7: distance(a, b) equals distance(b, a) for every pair of
    arguments, in particular for Point/Point, Line/Line and for
    Point/Line, Point/Plane and Line/Plane in either order; when one
    order raises, the other raises the same exception. *)
Theorem distance_symmetric (a b : pyobj R) :
  distance a b = distance b a.
Proof.
  unfold distance. change recursion_limit with (S 999).
  assert (Hbig : (5 <= 999)%nat) by lia.
  generalize dependent 999%nat. intros d Hd.
  destruct a as [| |ba|ka|va|pa|la|ea], b as [| |bb|kb|vb|pb|lb|eb];
    try reflexivity.
  - (* Point, Point *)
    cbn [distance_rec]. rewrite Vector_length_between. reflexivity.
  - (* Point, Line *)
    change (distance_rec (S d) (PyLine lb) (PyPoint pa))
      with (distance_rec d (PyPoint pa) (PyLine lb)).
    symmetry. apply distance_Point_Line_stable. lia.
  - (* Point, Plane *)
    change (distance_rec (S d) (PyPlane eb) (PyPoint pa))
      with (distance_rec d (PyPoint pa) (PyPlane eb)).
    symmetry. apply distance_Point_Plane_stable. lia.
  - (* Line, Point *)
    change (distance_rec (S d) (PyLine la) (PyPoint pb))
      with (distance_rec d (PyPoint pb) (PyLine la)).
    apply distance_Point_Line_stable. lia.
  - (* Line, Line *)
    apply distance_Line_Line_sym.
  - (* Line, Plane *)
    change (distance_rec (S d) (PyPlane eb) (PyLine la))
      with (distance_rec d (PyLine la) (PyPlane eb)).
    symmetry. apply distance_Line_Plane_stable. lia.
  - (* Plane, Point *)
    change (distance_rec (S d) (PyPlane ea) (PyPoint pb))
      with (distance_rec d (PyPoint pb) (PyPlane ea)).
    apply distance_Point_Plane_stable. lia.
  - (* Plane, Line *)
    change (distance_rec (S d) (PyPlane ea) (PyLine lb))
      with (distance_rec d (PyLine lb) (PyPlane ea)).
    apply distance_Line_Plane_stable. lia.
Qed.

End DistanceOverR.

(** * Angles *)

Section AngleOverR.
Local Open Scope R_scope.

Lemma Vector_length_pos (v : Vector R) : nonzero v -> 0 < Vector_length v.
Proof.
  intros Hv. unfold Vector_length, Vector_dot. cbn.
  apply sqrt_lt_R0. destruct v as [a b c]. unfold nonzero in Hv. simpl in *.
  assert (0 <= a * a) by nra. assert (0 <= b * b) by nra.
  assert (0 <= c * c) by nra.
  destruct Hv as [Hv | [Hv | Hv]].
  - assert (0 < a * a) by nra. lra.
  - assert (0 < b * b) by nra. lra.
  - assert (0 < c * c) by nra. lra.
Qed.

Lemma Vector_angle_nonzero (u v : Vector R) :
  nonzero u -> nonzero v -> Vector_angle u v = Ok (raw_angle u v).
Proof.
  intros Hu Hv. unfold Vector_angle, py_div.
  pose proof (Vector_length_pos u Hu) as Hlu.
  pose proof (Vector_length_pos v Hv) as Hlv.
  cbn [s_eqb R_Scalar s_mul s_ofQ]. unfold Reqb.
  destruct (Req_dec_T _ _) as [Heq | Hne].
  - exfalso. rewrite RMicromega.Q2R_0 in Heq.
    pose proof (Rmult_lt_0_compat _ _ Hlu Hlv) as Hpos.
    rewrite Heq in Hpos. exact (Rlt_irrefl _ Hpos).
  - reflexivity.
Qed.

Lemma half_pi : s_ofQ (1 # 2) * PI = PI / 2.
Proof. cbn. unfold Q2R. simpl. lra. Qed.

Lemma acute_is_representative (theta : R) :
  acute theta = acute_representative theta.
Proof.
  unfold acute, acute_representative.
  cbn [s_ltb s_mul s_sub s_ofQ R_Scalar math_pi R_MathLib].
  replace (Q2R (1 # 2) * PI) with (PI / 2) by (unfold Q2R; simpl; lra).
  unfold Rltb, Rmin.
  destruct (Rlt_dec (PI / 2) theta), (Rle_dec theta (PI - theta)); lra.
Qed.

Lemma acute_representative_range (theta : R) :
  0 <= theta <= PI -> 0 <= acute_representative theta <= PI / 2.
Proof.
  intros Hth. unfold acute_representative, Rmin.
  destruct (Rle_dec theta (PI - theta)); lra.
Qed.

Lemma raw_angle_range (u v : Vector R) : 0 <= raw_angle u v <= PI.
Proof. apply acos_bound. Qed.

(** ** C6 *)

(** C6: for Line/Line, Line/Plane (either order) and Plane/Plane with
    non-zero directions and normals, angle returns the angle that the
    specification assigns to the pair (the acute representative of the
    angle between directions, respectively normals; pi/2 minus the acute
    angle between direction and normal for a line and a plane), and that
    angle lies in [0, pi/2]. *)
Theorem angle_is_acute (a b : pyobj R) (theta : R) :
  specified_angle a b = Some theta ->
  well_formed a -> well_formed b ->
  angle a b = Ok (PyNum theta) /\ 0 <= theta <= PI / 2.
Proof.
  intros Hspec Ha Hb.
  destruct a as [| |ba|ka|va|pa|la|ea], b as [| |bb|kb|vb|pb|lb|eb];
    try discriminate; simpl in Hspec, Ha, Hb; inversion Hspec; subst theta;
    clear Hspec.
  - (* Line, Line *)
    split.
    + unfold angle. rewrite Vector_angle_nonzero by assumption.
      cbn [mbind result_bind]. rewrite acute_is_representative. reflexivity.
    + apply acute_representative_range, raw_angle_range.
  - (* Line, Plane *)
    split.
    + unfold angle, angle_Line_Plane. rewrite Vector_angle_nonzero by assumption.
      cbn [mbind result_bind]. rewrite acute_is_representative.
      do 2 f_equal. cbn. unfold Q2R. simpl. lra.
    + pose proof (acute_representative_range _ (raw_angle_range (dv la) (n eb))).
      lra.
  - (* Plane, Line *)
    split.
    + unfold angle, angle_Line_Plane. rewrite Vector_angle_nonzero by assumption.
      cbn [mbind result_bind]. rewrite acute_is_representative.
      do 2 f_equal. cbn. unfold Q2R. simpl. lra.
    + pose proof (acute_representative_range _ (raw_angle_range (dv lb) (n ea))).
      lra.
  - (* Plane, Plane *)
    split.
    + unfold angle. rewrite Vector_angle_nonzero by assumption.
      cbn [mbind result_bind]. rewrite acute_is_representative. reflexivity.
    + apply acute_representative_range, raw_angle_range.
Qed.

End AngleOverR.

(** * Points *)

Section PointOps.
Context {K : Type} `{Scalar K}.

(** ** C9 *)

(** C9 (as amended): a Point is mutable through item assignment.
    p[item] = value with an item from -3 to 2 overwrites the coordinate
    the item selects (x for 0 and -3, y for 1 and -2, z for 2 and -1)
    and leaves the other two as they are; with any other item it raises
    IndexError. *)
Theorem Point_setitem_overwrites_selected_coordinate
  (self : Point K) (item : Z) (value : K) :
  ((-3 <= item < 3)%Z ->
     exists self',
       Point_setitem self item value = Ok self'
       /\ coordinate self' (selected item) = value
       /\ forall j, (j < 3)%nat -> j <> selected item ->
            coordinate self' j = coordinate self j)
  /\ ((item < -3 \/ 3 <= item)%Z ->
      Point_setitem self item value = Raise IndexError).
Proof.
  split.
  - intros Hitem.
    assert (Hcases : (item = -3 \/ item = -2 \/ item = -1
                      \/ item = 0 \/ item = 1 \/ item = 2)%Z) by lia.
    destruct Hcases as [-> | [-> | [-> | [-> | [-> | ->]]]]];
      (eexists; split; [reflexivity|]; split; [reflexivity|]);
      intros [|[|[|j]]] Hj Hne; try lia; try reflexivity;
      exfalso; apply Hne; reflexivity.
  - intros Hitem. unfold Point_setitem, index3.
    destruct ((0 <=? item)%Z && (item <? 3)%Z) eqn:H1.
    { apply andb_true_iff in H1 as [Ha Hb].
      apply Z.leb_le in Ha. apply Z.ltb_lt in Hb. lia. }
    destruct ((-3 <=? item)%Z && (item <? 0)%Z) eqn:H2.
    { apply andb_true_iff in H2 as [Ha Hb].
      apply Z.leb_le in Ha. apply Z.ltb_lt in Hb. lia. }
    reflexivity.
Qed.

End PointOps.


(** C9 fails as stated: item assignment is part of the public interface
    of a Point and overwrites a coordinate: after p[0] = 5 the Point
    (1, 2, 3) is (5, 2, 3). *)
Lemma setitem_changes_a_coordinate :
  exists self',
    Point_setitem (mkPoint 1%Q 2%Q 3%Q) 0 5%Q = Ok self'
    /\ self' = mkPoint 5%Q 2%Q 3%Q
    /\ ~ (x self' == x (mkPoint 1%Q 2%Q 3%Q))%Q.
Proof.
  eexists. split; [reflexivity|]. split; [reflexivity|].
  simpl. intros Heq. discriminate Heq.
Qed.

(** * Unsupported pairs *)

Section Unsupported.
Context {K : Type} `{Scalar K} `{MathLib K} `{VectorTests K}.

(** ** C8 *)

(** C8: for a pair of arguments whose kinds are not among the supported
    combinations, intersection, parallel, angle and orthogonal return
    the NotImplemented marker, and so does distance for the pairs it
    does not support. *)
Theorem unsupported_pairs_signal_NotImplemented (a b : pyobj K) :
  (supported_relation (kind_of a) (kind_of b) = false ->
     intersection a b = Ok PyNotImplemented
     /\ parallel a b = PyNotImplemented
     /\ angle a b = Ok PyNotImplemented
     /\ orthogonal a b = PyNotImplemented)
  /\ (supported_distance (kind_of a) (kind_of b) = false ->
     distance a b = Ok PyNotImplemented).
Proof.
  split.
  - intros Hunsup.
    destruct a, b; simpl in Hunsup; try discriminate;
      repeat split; reflexivity.
  - intros Hunsup. unfold distance. change recursion_limit with (S 999).
    generalize 999%nat. intros d.
    destruct a, b; simpl in Hunsup; try discriminate; reflexivity.
Qed.

End Unsupported.


(** * The examples of section 8 of the specification *)

Section Examples.
Local Open Scope Q_scope.

Example lines_meet_at_origin :
  intersection (H0 := tolerance_tests)
    (PyLine (mkLine (mkVector 0 0 0) (mkVector 1 0 0)))
    (PyLine (mkLine (mkVector 0 0 0) (mkVector 0 1 0)))
  = Ok (PyPoint (mkPoint 0 0 0)).
Proof. vm_compute. reflexivity. Qed.

Example parallel_lines_do_not_meet :
  intersection (H0 := tolerance_tests)
    (PyLine (mkLine (mkVector 0 0 0) (mkVector 1 0 0)))
    (PyLine (mkLine (mkVector 0 1 0) (mkVector 1 0 0)))
  = Ok PyNone.
Proof. vm_compute. reflexivity. Qed.

Example planes_meet_in_the_z_axis :
  intersection (H0 := tolerance_tests)
    (PyPlane (mkPlane (mkPoint 0 0 0) (mkVector 1 0 0)))
    (PyPlane (mkPlane (mkPoint 0 0 0) (mkVector 0 1 0)))
  = Ok (PyLine (mkLine (mkVector 0 0 1) (mkVector 0 0 1))).
Proof. vm_compute. reflexivity. Qed.

End Examples.

Section ExamplesOverR.
Local Open Scope R_scope.

Lemma Reqb_false (a b : R) : a <> b -> Reqb a b = false.
Proof. intros Hne. unfold Reqb. destruct (Req_dec_T a b); [contradiction|reflexivity]. Qed.
Lemma Rltb_false (a b : R) : b <= a -> Rltb a b = false.
Proof. intros Hle. unfold Rltb. destruct (Rlt_dec a b); [lra|reflexivity]. Qed.

Example distance_point_plane :
  distance (H1 := tolerance_tests)
    (PyPoint (mkPoint 0 0 0))
    (PyPlane (mkPlane (mkPoint 0 0 1) (mkVector 0 0 1)))
  = Ok (PyNum 1).
Proof.
  unfold distance. change recursion_limit with (S (S 998)).
  generalize 998%nat. intros d.
  cbn [distance_rec]. 
  unfold intersection, intersection_Line_Plane, Plane_contains_line,
    Plane_contains_point, parallel, truthy, Line_of_point, Point_pv,
    Point_of_vector, Vector_dot, Vector_add, Vector_scale, py_div.
  cbn [sv dv n p x y z vx vy vz Vector_orthogonal tolerance_tests
       s_eqb s_ltb s_add s_sub s_mul s_div s_ofQ s_abs R_Scalar].
  rewrite (Reqb_false (0 * 0 + 0 * 0 + 0 * 1) (0 * 0 + 0 * 0 + 1 * 1)) by lra.
  cbn [andb]. unfold null, tolerance, Vector_dot.
  cbn [sv dv n p x y z vx vy vz s_eqb s_ltb s_add s_sub s_mul s_div s_ofQ s_abs R_Scalar].
  rewrite Rltb_false.
  2:{ unfold Q2R. simpl. rewrite Rabs_pos_eq; lra. }
  rewrite Reqb_false.
  2:{ rewrite RMicromega.Q2R_0. lra. }
  cbn [mbind result_bind distance_rec]. do 2 f_equal.
  unfold Vector_length, Vector_between, Vector_dot.
  cbn [x y z vx vy vz s_add s_sub s_mul s_div R_Scalar math_sqrt R_MathLib].
  replace (_ + _ + _) with (1 * 1) by field.
  rewrite sqrt_square; lra.
Qed.

End ExamplesOverR.

(** * The theorems at concrete inputs *)

Section Instances.
Local Open Scope Q_scope.

(** C3 on the single row 0x + 0y = 1. *)
Lemma Solution_falsy_iff_contradiction_witness :
  has_cols 3 [[0; 0; 1]]
  /\ Solution_bool (Solution_init [[0; 0; 1]]) = false
  /\ Exists contradiction_row [[0; 0; 1]]
  /\ Solution_call (Solution_init [[0; 0; 1]]) [7] = Raise ValueError_no_solution.
Proof.
  assert (Hc : has_cols 3 [[0; 0; 1]]) by (repeat constructor).
  assert (Hf : Solution_bool (Solution_init [[0; 0; 1]]) = false)
    by (vm_compute; reflexivity).
  destruct (Solution_falsy_iff_contradiction 2 [[0; 0; 1]] Hc) as [Hiff Hcall].
  split; [exact Hc|]. split; [exact Hf|].
  split; [apply Hiff; exact Hf | apply Hcall; exact Hf].
Defined.

(** C4 on x = 0 followed by a null row: three variables, one row that is
    not entirely null, two free parameters; queried with one value. *)
Lemma Solution_varargs_and_count_mismatch_witness :
  let s := [[1; 0; 0; 0]; [0; 0; 0; 0]] in
  let sol := Solution_init s in
  s <> [] /\ has_cols 4 s
  /\ Solution_bool sol = true
  /\ varcount sol = 3%Z
  /\ varargs sol = 2%Z
  /\ Solution_call sol [1] = Raise (ValueError_count 2 1).
Proof.
  intros s sol.
  assert (Hne : s <> []) by discriminate.
  assert (Hc : has_cols 4 s) by (repeat constructor).
  assert (Hs : Solution_bool sol = true) by (vm_compute; reflexivity).
  destruct (Solution_varargs_and_count_mismatch 3 s Hne Hc)
    as (Hvc & Hva & _ & Hcall).
  split; [exact Hne|]. split; [exact Hc|]. split; [exact Hs|].
  split; [exact Hvc|]. split; [exact Hva|].
  apply (Hcall Hs [1]). vm_compute. discriminate.
Defined.


(** C10 on two descriptions of the x axis. *)
Lemma coincident_lines_count_mismatch_witness :
  let a := mkLine (mkVector 0 0 0) (mkVector 1 0 0) in
  let b := mkLine (mkVector 5 0 0) (mkVector 2 0 0) in
  coincident a b
  /\ axis_parallel (dv a)
  /\ nullrow (Vector_list (dv a)) = false
  /\ Solution_bool (solve (Line_Line_system a b)) = true
  /\ varargs (solve (Line_Line_system a b)) = 1%Z
  /\ intersection (H0 := tolerance_tests) (PyLine a) (PyLine b)
     = Raise (ValueError_count 1 0).
Proof.
  intros a b.
  assert (Hco : coincident a b).
  { intros [px py pz]. unfold on_line. simpl. split.
    - intros (t & Hx & Hy & Hz). exists ((t - 5) / 2).
      repeat split; [field_simplify; Lqa.lra | Lqa.lra | Lqa.lra].
    - intros (t & Hx & Hy & Hz). exists (5 + 2 * t).
      repeat split; Lqa.lra. }
  assert (Hax : axis_parallel (dv a))
    by (left; split; reflexivity).
  assert (Hnn : nullrow (Vector_list (dv a)) = false)
    by (vm_compute; reflexivity).
  split; [exact Hco|]. split; [exact Hax|]. split; [exact Hnn|].
  exact (proj2 (coincident_lines_count_mismatch tolerance_tests a b
                  Hco Hax Hnn)).
Defined.

(** C9 on the Point (1, 2, 3): assigning 9 to item -1, and to item 3. *)
Lemma Point_setitem_overwrites_selected_coordinate_witness :
  (-3 <= -1 < 3)%Z /\ (3 < -3 \/ 3 <= 3)%Z
  /\ (exists self',
        Point_setitem (mkPoint 1 2 3) (-1) 9 = Ok self'
        /\ coordinate self' 2 = 9
        /\ forall j, (j < 3)%nat -> j <> 2%nat ->
             coordinate self' j = coordinate (mkPoint 1 2 3) j)
  /\ Point_setitem (mkPoint 1 2 3) 3 9 = Raise IndexError.
Proof.
  assert (Hin : (-3 <= -1 < 3)%Z) by lia.
  assert (Hout : (3 < -3 \/ 3 <= 3)%Z) by lia.
  split; [exact Hin|]. split; [exact Hout|]. split.
  - exact (proj1 (Point_setitem_overwrites_selected_coordinate
                    (mkPoint 1 2 3) (-1) 9) Hin).
  - exact (proj2 (Point_setitem_overwrites_selected_coordinate
                    (mkPoint 1 2 3) 3 9) Hout).
Defined.

End Instances.

Section InstancesOverR.
Local Open Scope R_scope.

(** C6 on the x axis and the y axis. *)
Lemma angle_is_acute_witness :
  let a := PyLine (mkLine (mkVector 0 0 0) (mkVector 1 0 0)) in
  let b := PyLine (mkLine (mkVector 0 0 0) (mkVector 0 1 0)) in
  let theta := acute_representative
                 (raw_angle (mkVector 1 0 0) (mkVector 0 1 0)) in
  well_formed a /\ well_formed b
  /\ angle a b = Ok (PyNum theta)
  /\ 0 <= theta <= PI / 2.
Proof.
  intros a b theta.
  assert (Ha : well_formed a) by (left; simpl; lra).
  assert (Hb : well_formed b) by (right; left; simpl; lra).
  split; [exact Ha|]. split; [exact Hb|].
  exact (angle_is_acute a b theta eq_refl Ha Hb).
Defined.

(** C8 on two Points and on two Planes. *)
Lemma unsupported_pairs_signal_NotImplemented_witness :
  let a := PyPoint (mkPoint 0 0 0) in
  let e := PyPlane (mkPlane (mkPoint 0 0 0) (mkVector 0 0 1)) in
  orthogonal (H0 := tolerance_tests) a a = PyNotImplemented
  /\ distance (H1 := tolerance_tests) e e = Ok PyNotImplemented.
Proof.
  intros a e. split.
  - exact (proj2 (proj2 (proj2 (proj1
        (unsupported_pairs_signal_NotImplemented (H1 := tolerance_tests) a a)
        eq_refl)))).
  - exact (proj2
        (unsupported_pairs_signal_NotImplemented (H1 := tolerance_tests) e e)
        eq_refl).
Defined.

End InstancesOverR.

(** * Further properties of the code *)

Import plane echelon.

(** * Indexing helpers of the solver *)

Section HelperFacts.
Context {K : Type} `{Scalar K}.

Lemma index_from_spec {A} (f : A -> bool) (l : list A) (k : nat) :
  match index_from f l k with
  | Ok i =>
      (k <= i)%nat
      /\ (exists v, l !! (i - k)%nat = Some v /\ f v = true)
      /\ (forall j v, (j < i - k)%nat -> l !! j = Some v -> f v = false)
  | Raise e => e = ValueError_no_item /\ Forall (fun v => f v = false) l
  end.
Proof.
  revert k. induction l as [|a l IH]; intros k; simpl.
  - split; [reflexivity | constructor].
  - destruct (f a) eqn:Hfa.
    + split; [lia|]. rewrite Nat.sub_diag. split.
      * exists a. split; [reflexivity | assumption].
      * intros j v Hj. lia.
    + specialize (IH (S k)). destruct (index_from f l (S k)) as [i|e].
      * destruct IH as (Hle & (v & Hv & Hfv) & Hbefore).
        split; [lia|]. split.
        -- exists v. split; [|assumption].
           replace (i - k)%nat with (S (i - S k)) by lia. exact Hv.
        -- intros j w Hj Hw. destruct j as [|j].
           ++ simpl in Hw. inversion Hw; subst. assumption.
           ++ simpl in Hw. apply (Hbefore j); [lia | assumption].
      * destruct IH as [-> Hall]. split; [reflexivity|].
        constructor; assumption.
Qed.

(** index(f, l) returns the first position whose item satisfies f, and
    raises its ValueError exactly when no item does. *)
Theorem index_returns_first_match {A} (f : A -> bool) (l : list A) :
  match index f l with
  | Ok i =>
      (exists v, l !! i = Some v /\ f v = true)
      /\ (forall j v, (j < i)%nat -> l !! j = Some v -> f v = false)
  | Raise e => e = ValueError_no_item /\ Forall (fun v => f v = false) l
  end.
Proof.
  unfold index. pose proof (index_from_spec f l 0) as Hspec.
  destruct (index_from f l 0) as [i|e]; [|exact Hspec].
  rewrite Nat.sub_0_r in Hspec. destruct Hspec as (_ & Hat & Hbefore).
  split; assumption.
Qed.

Lemma first_nonzero_from_index (r : list K) (k : nat) :
  match index_from (fun v => negb (null v)) r k with
  | Ok i => first_nonzero_from r k = i
  | Raise _ => first_nonzero_from r k = (k + length r)%nat
  end.
Proof.
  revert k. induction r as [|a r IH]; intros k; simpl.
  - lia.
  - destruct (negb (null a)); [reflexivity|].
    specialize (IH (S k)).
    destruct (index_from _ r (S k)); [assumption|]. rewrite IH. lia.
Qed.

Lemma nullrow_Forall (r : list K) :
  nullrow r = true <-> Forall (fun v => negb (null v) = false) r.
Proof.
  unfold nullrow. rewrite forallb_Forall_true. split; intros Hall;
    (eapply Forall_impl; [exact Hall|]); simpl; intros v Hv.
  - rewrite Hv. reflexivity.
  - apply negb_false_iff. exact Hv.
Qed.

(** first_nonzero(r) is len(r) exactly when the whole row is null;
    otherwise it is the position of the first entry that is not null,
    the position index finds. *)
Theorem first_nonzero_is_first_nonnull (r : list K) :
  (first_nonzero r <= length r)%nat
  /\ (first_nonzero r = length r <-> nullrow r = true)
  /\ (forall j v, (j < first_nonzero r)%nat -> r !! j = Some v -> null v = true)
  /\ (nullrow r = false ->
      index (fun v => negb (null v)) r = Ok (first_nonzero r)
      /\ exists v, r !! first_nonzero r = Some v /\ null v = false).
Proof.
  unfold first_nonzero.
  pose proof (first_nonzero_from_index r 0) as Hfi.
  pose proof (index_from_spec (fun v => negb (null v)) r 0) as Hix.
  destruct (index_from (fun v => negb (null v)) r 0) as [i|e] eqn:Hi.
  - rewrite Nat.sub_0_r in Hix.
    destruct Hix as (_ & (v & Hv & Hnv) & Hbefore). rewrite Hfi.
    pose proof (lookup_lt_Some _ _ _ Hv) as Hlt.
    assert (Hnot : nullrow r = false).
    { destruct (nullrow r) eqn:Hn; [|reflexivity].
      apply nullrow_Forall in Hn. rewrite Forall_forall in Hn.
      specialize (Hn v (list_elem_of_lookup_2 _ _ _ Hv)). simpl in Hn. congruence. }
    split; [lia|]. split; [split; [lia | congruence]|]. split.
    + intros j w Hj Hw. specialize (Hbefore j w Hj Hw).
      apply negb_false_iff. exact Hbefore.
    + intros _. split; [unfold index; exact Hi|].
      exists v. split; [assumption|]. apply negb_true_iff. exact Hnv.
  - destruct Hix as [-> Hall]. rewrite Hfi. simpl.
    apply nullrow_Forall in Hall.
    split; [lia|]. split; [split; [intros _; assumption | reflexivity]|].
    split.
    + intros j w Hj Hw. apply nullrow_Forall in Hall.
      rewrite Forall_forall in Hall.
      specialize (Hall w (list_elem_of_lookup_2 _ _ _ Hw)). simpl in Hall.
      apply negb_false_iff. exact Hall.
    + intros Hn. congruence.
Qed.

(** count(f, l) is the number of items satisfying f: at most len(l), and
    zero exactly when index(f, l) raises. *)
Theorem count_counts_matches {A} (f : A -> bool) (l : list A) :
  count f l = length (List.filter f l)
  /\ (count f l <= length l)%nat
  /\ (count f l = 0%nat <-> index f l = Raise ValueError_no_item).
Proof.
  assert (Hc : count f l = length (List.filter f l)).
  { unfold count. rewrite count_acc. reflexivity. }
  split; [exact Hc|]. split.
  - rewrite Hc. apply List.filter_length_le.
  - rewrite Hc. pose proof (index_from_spec f l 0) as Hix.
    unfold index. split.
    + intros Hzero. destruct (index_from f l 0) as [i|e].
      * exfalso. rewrite Nat.sub_0_r in Hix.
        destruct Hix as (_ & (v & Hv & Hfv) & _).
        apply list_elem_of_lookup_2 in Hv. apply list_elem_of_In in Hv.
        assert (Hin : In v (List.filter f l)) by (apply filter_In; split; assumption).
        destruct (List.filter f l); [inversion Hin | discriminate].
      * destruct Hix as [-> _]. reflexivity.
    + intros Hraise. rewrite Hraise in Hix. destruct Hix as [_ Hall].
      clear Hraise Hc. induction Hall as [|a l' Ha Hall IH]; [reflexivity|].
      simpl. rewrite Ha. exact IH.
Qed.

End HelperFacts.

(** * Outcomes of a query *)

Section QueryOutcomes.
Context {K : Type} `{Scalar K}.

Lemma first_nonzero_from_app (cs : list K) (d : K) (k : nat) :
  first_nonzero_from (cs ++ [d]) k
  = if forallb null cs
    then (if null d then S (k + length cs) else (k + length cs))%nat
    else first_nonzero_from cs k.
Proof.
  revert k. induction cs as [|c cs IH]; intros k; simpl.
  - destruct (null d); simpl; lia.
  - destruct (null c); simpl; [|reflexivity].
    rewrite IH. destruct (forallb null cs); [|reflexivity].
    destruct (null d); lia.
Qed.

Lemma first_nonzero_from_bound (cs : list K) (k : nat) :
  forallb null cs = false -> (first_nonzero_from cs k < k + length cs)%nat.
Proof.
  revert k. induction cs as [|c cs IH]; intros k; simpl.
  - discriminate.
  - destruct (null c); simpl; [|lia].
    intros Hcs. specialize (IH (S k) Hcs). lia.
Qed.

(** In a solvable system the leading entry of a row that is not null is
    a coefficient, never the right-hand side. *)
Lemma leading_is_a_coefficient (n : nat) (row : list K) :
  length row = S n -> contradiction row = false -> nullrow row = false ->
  (first_nonzero row < n)%nat.
Proof.
  intros Hlen Hcon Hnn.
  destruct (exists_last (l := row)) as (cs & d & ->).
  { intros ->. discriminate. }
  rewrite length_app in Hlen. simpl in Hlen.
  unfold contradiction, coeffs, rhs in Hcon.
  rewrite removelast_last, last_last in Hcon.
  unfold nullrow in Hnn. rewrite forallb_app in Hnn. simpl in Hnn.
  unfold first_nonzero. rewrite first_nonzero_from_app.
  destruct (forallb null cs) eqn:Hcs.
  - simpl in Hcon, Hnn. destruct (null d); simpl in *; discriminate.
  - pose proof (first_nonzero_from_bound cs 0 Hcs). lia.
Qed.

Lemma sum_terms_outcome (row : list K) (vals : list (option K)) :
  forall (js : list nat) (acc : K),
  Forall (fun j => (j < length row)%nat /\ (j < length vals)%nat) js ->
  (exists sm, sum_terms row vals js acc = Ok sm)
  \/ sum_terms row vals js acc = Raise TypeError.
Proof.
  induction js as [|j js IH]; intros acc Hjs.
  - left. eexists. reflexivity.
  - inversion Hjs as [|? ? [Hr Hv] Hjs']; subst.
    simpl sum_terms. unfold term.
    rewrite (list_get_entry row j Hr). cbn [mbind result_bind].
    unfold list_get.
    destruct (lookup_lt_is_Some_2 vals j Hv) as [vj ->].
    cbn [mbind result_bind]. destruct vj as [x|].
    + cbn [mbind result_bind]. apply IH. assumption.
    + right. reflexivity.
Qed.

Lemma backsubst_row_outcome (n : nat) (row : list K) (vals : list (option K)) :
  length row = S n -> length vals = n -> contradiction row = false ->
  (exists vals', backsubst_row vals row = Ok vals' /\ length vals' = n)
  \/ backsubst_row vals row = Raise TypeError.
Proof.
  intros Hrow Hvals Hcon. unfold backsubst_row.
  destruct (nullrow row) eqn:Hnn.
  - left. exists vals. split; [reflexivity | assumption].
  - pose proof (leading_is_a_coefficient n row Hrow Hcon Hnn) as Hlead.
    destruct (sum_terms_outcome row vals
                (seq (S (first_nonzero row))
                     (length row - 1 - S (first_nonzero row))) (s_ofQ 0))
      as [[sm ->] | ->].
    { apply Forall_forall. intros j Hj. apply elem_of_seq in Hj. lia. }
    + cbn [mbind result_bind]. rewrite list_get_entry by lia.
      cbn [mbind result_bind]. unfold list_assign.
      rewrite decide_True by lia. left. eexists. split; [reflexivity|].
      rewrite length_insert. assumption.
    + right. reflexivity.
Qed.

Lemma backsubst_outcome (n : nat) (rrows : matrix) :
  Forall (fun row => length row = S n /\ contradiction row = false) rrows ->
  forall vals, length vals = n ->
  (exists vals', backsubst rrows vals = Ok vals' /\ length vals' = n)
  \/ backsubst rrows vals = Raise TypeError.
Proof.
  induction 1 as [|row rrows [Hrow Hcon] Hrest IH]; intros vals Hvals.
  - left. exists vals. split; [reflexivity | assumption].
  - simpl backsubst.
    destruct (backsubst_row_outcome n row vals Hrow Hvals Hcon)
      as [(vals' & -> & Hlen) | ->].
    + cbn [mbind result_bind]. apply IH. assumption.
    + right. reflexivity.
Qed.

Lemma fill_length (i : nat) :
  forall (stack : list K) (vals : list (option K)),
  length (fill i stack vals) = length vals.
Proof.
  intros stack vals. rewrite fill_assign_all. apply length_assign_all.
Qed.

(** A query of a Solution over a non-empty array with n + 1 columns has
    four outcomes: "Has no solution" when the Solution is falsy; the
    count-mismatch error when it is solvable and the number of arguments
    is wrong; otherwise either a tuple with n entries or a TypeError
    (back-substitution met an unresolved variable).  It never raises
    IndexError nor the ValueError of index. *)
Theorem query_outcomes (n : nat) (s : matrix) (v : list K) :
  s <> [] -> has_cols (S n) s ->
  let sol := Solution_init s in
  match Solution_call sol v with
  | Ok t =>
      length t = n /\ Solution_bool sol = true
      /\ Z.of_nat (length v) = varargs sol
  | Raise e =>
      (e = ValueError_no_solution /\ Solution_bool sol = false)
      \/ (e = ValueError_count (varargs sol) (length v)
          /\ Solution_bool sol = true /\ Z.of_nat (length v) <> varargs sol)
      \/ (e = TypeError
          /\ Solution_bool sol = true /\ Z.of_nat (length v) = varargs sol)
  end.
Proof.
  intros Hne Hcols sol.
  destruct (Solution_bool sol) eqn:Hsolv.
  - destruct (Z.eq_dec (Z.of_nat (length v)) (varargs sol)) as [Hlen | Hlen].
    + unfold Solution_call. unfold Solution_bool in Hsolv. rewrite Hsolv.
      rewrite Hlen, Z.eqb_refl. cbn [negb].
      unfold sol at 1. rewrite (varcount_init n s Hne Hcols).
      change (_s (Solution_init s)) with s.
      rewrite (scan_from_nothing n s Hcols). cbn [mbind result_bind].
      destruct (backsubst_outcome n (rev s)) with
        (vals := fill (length (fixed_by_single_rows n s)) (rev v)
                      (fixed_by_single_rows n s))
        as [(t & -> & Ht) | ->].
      * apply Forall_rev. apply Forall_forall. intros row Hrow. split.
        -- unfold has_cols in Hcols. rewrite Forall_forall in Hcols. auto.
        -- pose proof (solvable_no_contradiction s Hsolv) as Hno.
           rewrite Forall_forall in Hno. auto.
      * rewrite fill_length. apply length_fixed_by_single_rows.
      * split; [exact Ht|]. split; reflexivity.
      * right. right. split; [reflexivity|]. split; reflexivity.
    + rewrite (call_count_mismatch sol v Hsolv Hlen).
      right. left. split; [reflexivity|]. split; [reflexivity | exact Hlen].
  - unfold Solution_call. unfold Solution_bool in Hsolv. rewrite Hsolv.
    left. split; reflexivity.
Qed.

End QueryOutcomes.

(** * One equation, and planes in general form *)

Section SingleEquation.
Context {K : Type} `{Scalar K} `{VectorTests K}.
#[local] Arguments null : simpl never.

Lemma lu_U_single_row (c0 : K) (r : list K) :
  lu_U [c0 :: r] = [c0 :: r].
Proof.
  unfold lu_U. change (Nat.min _ _) with 1%nat.
  cbn [lu_steps]. change (pivot_index 0 [c0 :: r]) with 0%nat.
  cbn [lookup list_lookup default from_option]. unfold Datatypes.id.
  destruct (s_eqb _ _); reflexivity.
Qed.

Ltac run_nulls :=
  repeat (progress (unfold scan_row, backsubst_row, nullrow, count, index,
                      first_nonzero, list_get, list_assign, term, coeffs, rhs,
                      contradiction;
                    simpl;
                    repeat match goal with
                    | Hn : null ?a = _ |- context [null ?a] => rewrite Hn
                    end)).

(** The leading-variable value of the single row, as the third loop
    computes it: the sum starts at 0 and adds -1 * coefficient * value for
    the variables to the right, then the right-hand side. *)
Lemma single_row_call (a b c d v1 v2 : K) :
  let sol := Solution_init [[a; b; c; d]] in
  (null a = false ->
     Solution_call sol [v1; v2]
     = Ok [Some (s_div (s_add (s_add (s_add (s_ofQ 0)
                                 (s_mul (s_mul (s_ofQ (-1)) b) v1))
                                 (s_mul (s_mul (s_ofQ (-1)) c) v2)) d) a);
           Some v1; Some v2])
  /\ (null a = true -> null b = false -> null c = true ->
     Solution_call sol [v1; v2]
     = Ok [Some v1;
           Some (s_div (s_add (s_add (s_ofQ 0)
                                 (s_mul (s_mul (s_ofQ (-1)) c) v2)) d) b);
           Some v2])
  /\ (null a = true -> null b = true -> null c = false ->
     Solution_call sol [v1; v2]
     = Ok [Some v1; Some v2; Some (s_div (s_add (s_ofQ 0) d) c)])
  /\ (null a = true -> null b = false -> null c = false ->
     Solution_call sol [v1; v2]
     = Ok [None;
           Some (s_div (s_add (s_add (s_ofQ 0)
                                 (s_mul (s_mul (s_ofQ (-1)) c) v2)) d) b);
           Some v2])
  /\ (null a = true -> null b = true -> null c = true -> null d = false ->
     Solution_call sol [v1; v2] = Raise ValueError_no_solution)
  /\ (null a = true -> null b = true -> null c = true -> null d = true ->
     Solution_call sol [v1; v2] = Raise (ValueError_count 3 2)).
Proof.
  intros sol. unfold sol.
  repeat split; intros; unfold Solution_call, Solution_init;
    destruct (null b) eqn:Hb, (null c) eqn:Hc, (null d) eqn:Hd;
    try discriminate; run_nulls; reflexivity.
Qed.

Local Open Scope scalar_scope.

(** One equation a x + b y + c z = d, queried with two values: the
    leading variable is solved from the others, and the two values go to
    the other two variables, except when a is null and both b and c are
    not: then both values go to y and z, y is overwritten by the solved
    value, and x stays unresolved (None). *)
Theorem single_equation_query (a b c d v1 v2 : K) :
  let sol := solve [[a; b; c; d]] in
  let zero := s_ofQ 0 in
  let neg := s_ofQ (-1) in
  (null a = false ->
     Solution_call sol [v1; v2]
     = Ok [Some ((zero + neg * b * v1 + neg * c * v2 + d) / a);
           Some v1; Some v2])
  /\ (null a = true -> null b = false -> null c = true ->
     Solution_call sol [v1; v2]
     = Ok [Some v1; Some ((zero + neg * c * v2 + d) / b); Some v2])
  /\ (null a = true -> null b = true -> null c = false ->
     Solution_call sol [v1; v2]
     = Ok [Some v1; Some v2; Some ((zero + d) / c)])
  /\ (null a = true -> null b = false -> null c = false ->
     Solution_call sol [v1; v2]
     = Ok [None; Some ((zero + neg * c * v2 + d) / b); Some v2]).
Proof.
  intros sol zero neg. unfold sol, solve. rewrite lu_U_single_row.
  destruct (single_row_call a b c d v1 v2) as (H1 & H2 & H3 & H4 & _).
  repeat split; assumption.
Qed.

(** Plane(a, b, c, d) cannot be built from a degenerate general form:
    when a, b and c are null the construction raises "Has no solution"
    if d is not null, and the count-mismatch error (3 expected, 2 given)
    if d is null too. *)
Theorem Plane_init_gf_degenerate (a b c d : K) :
  null a = true -> null b = true -> null c = true ->
  Plane_init_gf a b c d
  = Raise (if null d then ValueError_count 3 2 else ValueError_no_solution).
Proof.
  intros Ha Hb Hc. unfold Plane_init_gf, solve. rewrite lu_U_single_row.
  destruct (single_row_call a b c d (s_ofQ 1) (s_ofQ 1))
    as (_ & _ & _ & _ & H5 & H6).
  destruct (null d) eqn:Hd.
  - rewrite (H6 Ha Hb Hc eq_refl). reflexivity.
  - rewrite (H5 Ha Hb Hc eq_refl). reflexivity.
Qed.

End SingleEquation.

Section GeneralFormOverQ.
Context `{VectorTests Q}.
Local Open Scope Q_scope.

(** Plane(a, b, c, d) with a not null is built; its point has
    y = z = 1; and its general form gives back a, b, c and a fourth
    coefficient equal to d. *)
Theorem Plane_general_form_round_trip (a b c d : Q) :
  null a = false ->
  exists e d',
    Plane_init_gf a b c d = Ok e
    /\ y (p e) = 1 /\ z (p e) = 1
    /\ Plane_general_form e = [a; b; c; d'] /\ d' == d.
Proof.
  intros Ha. unfold Plane_init_gf, solve. rewrite lu_U_single_row.
  destruct (single_row_call a b c d (s_ofQ 1) (s_ofQ 1)) as (H1 & _).
  rewrite (H1 Ha). cbn [mbind result_bind Point_init].
  eexists _, _. split; [reflexivity|].
  split; [reflexivity|]. split; [reflexivity|].
  split; [reflexivity|].
  cbn [Vector_dot n p Point_pv x y z vx vy vz s_add s_mul s_div s_ofQ Q_Scalar].
  assert (Hne : ~ a == 0).
  { intros Heq. apply Qeq_bool_iff, Q_null_of_zero in Heq. congruence. }
  field. exact Hne.
Qed.

End GeneralFormOverQ.

(** * Systems with a unique solution *)

Section UniqueSolution.
Local Open Scope Q_scope.

Lemma fold_left_qsum (f : nat -> Q) (js : list nat) (acc : Q) :
  fold_left (fun a j => a + f j) js acc == acc + qsum (map f js).
Proof.
  revert acc. induction js as [|j js IH]; intros acc; simpl.
  - ring.
  - rewrite IH. ring.
Qed.

Lemma qsum_app (l1 l2 : list Q) : qsum (l1 ++ l2) == qsum l1 + qsum l2.
Proof.
  induction l1 as [|a l1 IH]; simpl.
  - ring.
  - rewrite IH. ring.
Qed.

Lemma qsum_map_ext (f g : nat -> Q) (js : list nat) :
  (forall j, j ∈ js -> f j == g j) -> qsum (map f js) == qsum (map g js).
Proof.
  induction js as [|j js IH]; intros Hfg; simpl.
  - reflexivity.
  - rewrite (Hfg j) by left. rewrite IH; [reflexivity|].
    intros j' Hj'. apply Hfg. right. assumption.
Qed.

Lemma qsum_map_zero (f : nat -> Q) (js : list nat) :
  (forall j, j ∈ js -> f j == 0) -> qsum (map f js) == 0.
Proof.
  intros Hf. rewrite (qsum_map_ext f (fun _ => 0) js Hf). clear Hf.
  induction js as [|j js IH]; simpl; [reflexivity|]. rewrite IH. ring.
Qed.

(** The left-hand side of an equation as a sum over the variables. *)
Lemma lhs_value_indexed (cs xs : list Q) (acc : Q) :
  length cs = length xs ->
  fold_left Qplus (zip_with Qmult cs xs) acc
  == acc + qsum (map (fun j => nth j cs 0 * nth j xs 0) (seq 0 (length cs))).
Proof.
  revert xs acc. induction cs as [|c cs IH]; intros xs acc Hlen.
  - simpl. ring.
  - destruct xs as [|x xs]; [discriminate|]. simpl in Hlen.
    simpl zip_with. simpl fold_left. rewrite IH by lia.
    simpl length. simpl seq. simpl map. simpl qsum.
    rewrite <- seq_shift, map_map. simpl. ring.
Qed.

Lemma first_nonzero_from_at (row : list Q) :
  forall (i k : nat),
  (forall j v, (j < i)%nat -> row !! j = Some v -> null v = true) ->
  (exists v, row !! i = Some v /\ null v = false) ->
  first_nonzero_from row k = (k + i)%nat.
Proof.
  induction row as [|a row IH]; intros i k Hbefore (v & Hv & Hnv).
  - destruct i; discriminate.
  - destruct i as [|i]; cbn [first_nonzero_from].
    + simpl in Hv. inversion Hv; subst. rewrite Hnv. simpl. lia.
    + rewrite (Hbefore 0%nat a) by (try lia; reflexivity). cbn [negb].
      rewrite (IH i (S k)).
      * lia.
      * intros j w Hj Hw. apply (Hbefore (S j) w); [lia | exact Hw].
      * exists v. split; assumption.
Qed.

Lemma fill_nil (i : nat) (vals : list (option Q)) : fill i [] vals = vals.
Proof. destruct i; reflexivity. Qed.

Lemma entry_lookup (l : list Q) (j : nat) (v : Q) :
  l !! j = Some v -> entry l j = v.
Proof. intros Hv. unfold entry. rewrite Hv. reflexivity. Qed.

Lemma null_of_Qeq_zero (q : Q) : q == 0 -> null q = true.
Proof. intros Hq. apply Q_null_of_zero, Qeq_bool_iff. exact Hq. Qed.

(** Facts about one row of a triangular system. *)
Lemma triangular_row (n : nat) (s : list (list Q)) (i : nat) (row : list Q) :
  triangular n s -> s !! i = Some row ->
  (i < n)%nat /\ length row = S n /\ first_nonzero row = i
  /\ nullrow row = false /\ contradiction row = false.
Proof.
  intros (Hlen & Hcols & Hrows) Hrow.
  pose proof (lookup_lt_Some _ _ _ Hrow) as Hi. rewrite Hlen in Hi.
  destruct (Hrows i row Hrow) as [Hdiag Hleft].
  assert (Hlr : length row = S n).
  { unfold has_cols in Hcols. rewrite Forall_forall in Hcols.
    apply Hcols. eapply list_elem_of_lookup_2. exact Hrow. }
  destruct (lookup_lt_is_Some_2 row i) as [v Hv]; [lia|].
  rewrite (entry_lookup _ _ _ Hv) in Hdiag.
  assert (Hfirst : first_nonzero row = i).
  { unfold first_nonzero. rewrite (first_nonzero_from_at row i 0).
    - reflexivity.
    - intros j w Hj Hw. apply null_of_Qeq_zero.
      rewrite <- (entry_lookup _ _ _ Hw). apply Hleft. exact Hj.
    - exists v. split; assumption. }
  assert (Hnn : nullrow row = false).
  { destruct (nullrow row) eqn:Hn; [|reflexivity].
    unfold nullrow in Hn. rewrite forallb_Forall_true in Hn.
    rewrite Forall_forall in Hn.
    rewrite (Hn v (list_elem_of_lookup_2 _ _ _ Hv)) in Hdiag. discriminate. }
  split; [exact Hi|]. split; [exact Hlr|]. split; [exact Hfirst|].
  split; [exact Hnn|].
  destruct (exists_last (l := row)) as (cs & d & ->).
  { intros ->. discriminate. }
  rewrite length_app in Hlr. simpl in Hlr.
  unfold contradiction, coeffs. rewrite removelast_last.
  assert (Hcs : forallb null cs = false).
  { destruct (forallb null cs) eqn:Hall; [|reflexivity].
    rewrite forallb_Forall_true in Hall. rewrite Forall_forall in Hall.
    rewrite lookup_app_l in Hv by lia.
    rewrite (Hall v (list_elem_of_lookup_2 _ _ _ Hv)) in Hdiag. discriminate. }
  rewrite Hcs. reflexivity.
Qed.

Lemma tail_sum_ext (n : nat) (row xs xs' : list Q) (i : nat) :
  (forall j, (i < j)%nat -> entry xs j = entry xs' j) ->
  tail_sum n row xs i = tail_sum n row xs' i.
Proof.
  intros Hext. unfold tail_sum. do 2 f_equal.
  apply map_ext_in. intros j Hj. apply in_seq in Hj. apply Hext. lia.
Qed.

Lemma entry_insert_eq (xs : list Q) (k : nat) (v : Q) :
  (k < length xs)%nat -> entry (<[k := v]> xs) k = v.
Proof. intros Hk. unfold entry. rewrite list_lookup_insert_eq by assumption. reflexivity. Qed.

Lemma entry_insert_ne (xs : list Q) (k j : nat) (v : Q) :
  k <> j -> entry (<[k := v]> xs) j = entry xs j.
Proof. intros Hk. unfold entry. rewrite list_lookup_insert_ne by assumption. reflexivity. Qed.

(** Back-substitution on a triangular system, from row [n - m] down. *)
Lemma triangular_back_substitute (n : nat) (s : list (list Q))
  (vals1 : list (option Q)) :
  triangular n s -> length vals1 = n ->
  forall m, (m <= n)%nat ->
  exists vals xs,
    backsubst_rows (drop (n - m) s) vals1 = Ok vals
    /\ length vals = n /\ length xs = n
    /\ (forall j, (n - m <= j < n)%nat -> vals !! j = Some (Some (entry xs j)))
    /\ (forall i row, (n - m <= i)%nat -> s !! i = Some row ->
          entry xs i = (tail_sum n row xs i + rhs row) / entry row i).
Proof.
  intros Htri Hvals. pose proof Htri as (Hlen & _ & _).
  induction m as [|m IH]; intros Hm.
  - exists vals1, (replicate n 0). rewrite Nat.sub_0_r.
    rewrite drop_ge by lia. split; [reflexivity|]. split; [exact Hvals|].
    split; [apply length_replicate|]. split.
    + intros j Hj. lia.
    + intros i row Hi Hrow. apply lookup_lt_Some in Hrow. lia.
  - destruct IH as (vals' & xs' & Hback & Hlv & Hlx & Hres & Heqs); [lia|].
    set (k := (n - S m)%nat).
    assert (Hk : (n - m)%nat = S k) by (unfold k; lia).
    rewrite Hk in *.
    destruct (lookup_lt_is_Some_2 s k) as [row Hrow]; [unfold k; lia|].
    destruct (triangular_row n s k row Htri Hrow)
      as (Hkn & Hlr & Hfirst & Hnn & Hcon).
    rewrite (drop_S s row k Hrow).
    unfold backsubst_rows. cbn [foldr].
    fold (backsubst_rows (drop (S k) s) vals1). rewrite Hback.
    cbn [mbind result_bind].
    rewrite (backsubst_row_solves_leading n row vals'
               (map (entry xs') (seq (S k) (n - S k)))); try assumption.
    2:{ rewrite Hfirst. exact Hkn. }
    2:{ rewrite Hfirst. apply Forall2_fmap_r. apply Forall_Forall2_diag.
        apply Forall_forall. intros j Hj. apply elem_of_seq in Hj.
        apply Hres. lia. }
    rewrite Hfirst.
    set (newval := s_div _ _).
    exists (<[k := Some newval]> vals'), (<[k := newval]> xs').
    split; [reflexivity|]. split; [rewrite length_insert; exact Hlv|].
    split; [rewrite length_insert; exact Hlx|]. split.
    + intros j Hj. destruct (decide (k = j)) as [<- | Hne].
      * rewrite list_lookup_insert_eq by lia.
        rewrite entry_insert_eq by lia. reflexivity.
      * rewrite list_lookup_insert_ne by assumption.
        rewrite entry_insert_ne by assumption. apply Hres. lia.
    + intros i row' Hi Hrow'. destruct (decide (k = i)) as [<- | Hne].
      * rewrite Hrow in Hrow'. inversion Hrow'; subst row'.
        rewrite entry_insert_eq by lia.
        rewrite (tail_sum_ext n row (<[k := newval]> xs') xs' k)
          by (intros j Hj; apply entry_insert_ne; lia).
        reflexivity.
      * rewrite entry_insert_ne by assumption.
        rewrite (tail_sum_ext n row' (<[k := newval]> xs') xs' i)
          by (intros j Hj; apply entry_insert_ne; lia).
        apply Heqs; [lia | exact Hrow'].
Qed.

Lemma fold_left_zip_map {A} (F : A -> nat -> Q -> A) (g : nat -> Q)
  (js : list nat) (acc : A) :
  fold_left (fun a jx => F a jx.1 jx.2) (zip js (map g js)) acc
  = fold_left (fun a j => F a j (g j)) js acc.
Proof.
  revert acc. induction js as [|j js IH]; intros acc; simpl; [reflexivity|].
  apply IH.
Qed.

Lemma qsum_map_neg (f : nat -> Q) (js : list nat) :
  qsum (map (fun j => (-1) * f j) js) == - qsum (map f js).
Proof.
  induction js as [|j js IH]; simpl; [ring|]. rewrite IH. ring.
Qed.

Lemma tail_sum_qsum (n : nat) (row xs : list Q) (i : nat) :
  tail_sum n row xs i
  == - qsum (map (fun j => entry row j * entry xs j) (seq (S i) (n - S i))).
Proof.
  unfold tail_sum.
  rewrite (fold_left_zip_map (fun a j x => a + (-1) * entry row j * x)
             (entry xs)).
  rewrite (fold_left_qsum (fun j => (-1) * entry row j * entry xs j)).
  rewrite <- qsum_map_neg.
  rewrite (qsum_map_ext (fun j => -1 * entry row j * entry xs j)
             (fun j => -1 * (entry row j * entry xs j))).
  - ring.
  - intros j _. ring.
Qed.

Lemma coeffs_entry (n : nat) (row : list Q) (j : nat) :
  length row = S n -> (j < n)%nat -> nth j (coeffs row) 0 = entry row j.
Proof.
  intros Hlen Hj.
  destruct (exists_last (l := row)) as (cs & d & ->).
  { intros ->. discriminate. }
  rewrite length_app in Hlen. simpl in Hlen.
  unfold coeffs, entry. rewrite removelast_last.
  rewrite nth_lookup, lookup_app_l by lia. reflexivity.
Qed.

Lemma nonnull_nonzero (q : Q) : null q = false -> ~ q == 0.
Proof. intros Hq Heq. apply null_of_Qeq_zero in Heq. congruence. Qed.

(** The equation of row [i] holds once its leading variable has the value
    the third loop assigns. *)
Lemma triangular_equation (n : nat) (row xs : list Q) (i : nat) :
  length row = S n -> length xs = n -> (i < n)%nat ->
  null (entry row i) = false ->
  (forall j, (j < i)%nat -> entry row j == 0) ->
  entry xs i = (tail_sum n row xs i + rhs row) / entry row i ->
  equation_holds xs row.
Proof.
  intros Hrow Hxs Hi Hdiag Hleft Hxi.
  unfold equation_holds, lhs_value.
  rewrite lhs_value_indexed by (rewrite (length_coeffs row n Hrow); lia).
  rewrite (length_coeffs row n Hrow).
  rewrite (qsum_map_ext _ (fun j => entry row j * entry xs j)).
  2:{ intros j Hj. apply elem_of_seq in Hj.
      rewrite (coeffs_entry n row j Hrow) by lia.
      rewrite nth_lookup. reflexivity. }
  assert (Hseq : seq 0 n = seq 0 i ++ [i] ++ seq (S i) (n - S i)).
  { replace n with (i + (1 + (n - S i)))%nat at 1 by lia.
    rewrite (seq_app i (1 + (n - S i)) 0). simpl. reflexivity. }
  rewrite Hseq.
  rewrite !map_app, !qsum_app.
  rewrite (qsum_map_zero (fun j => entry row j * entry xs j) (seq 0 i)).
  2:{ intros j Hj. apply elem_of_seq in Hj. rewrite (Hleft j) by lia. ring. }
  pose proof (tail_sum_qsum n row xs i) as Htail.
  simpl qsum. rewrite Hxi. rewrite Htail.
  field. apply nonnull_nonzero. exact Hdiag.
Qed.

Lemma filter_all {A} (f : A -> bool) (l : list A) :
  Forall (fun a => f a = true) l -> List.filter f l = l.
Proof.
  induction 1 as [|a l Ha Hl IH]; simpl; [reflexivity|].
  rewrite Ha, IH. reflexivity.
Qed.

(** A triangular system has exactly one solution, and the query without
    arguments returns it: the Solution is solvable and exact, every
    entry of the tuple is resolved, and the tuple satisfies every
    equation of the reduced system. *)
Theorem triangular_system_is_solved (n : nat) (s : list (list Q)) :
  (0 < n)%nat -> triangular n s ->
  Solution_bool (Solution_init s) = true
  /\ exact (Solution_init s) = true
  /\ exists xs,
       Solution_call (Solution_init s) [] = Ok (map Some xs)
       /\ length xs = n /\ Forall (equation_holds xs) s.
Proof.
  intros Hn Htri. pose proof Htri as (Hlen & Hcols & Hrows).
  assert (Hne : s <> []) by (intros ->; simpl in Hlen; lia).
  assert (Hall : Forall (fun row => negb (nullrow row) = true
                                    /\ contradiction row = false) s).
  { apply Forall_forall. intros row Hin.
    apply list_elem_of_lookup_1 in Hin as [i Hi].
    destruct (triangular_row n s i row Htri Hi) as (_ & _ & _ & Hnn & Hcon).
    rewrite Hnn. split; [reflexivity | exact Hcon]. }
  assert (Hsolv : Solution_bool (Solution_init s) = true).
  { unfold Solution_bool, Solution_init. simpl. apply negb_true_iff.
    clear -Hall. induction Hall as [|row s [_ Hc] _ IH]; simpl; [reflexivity|].
    rewrite Hc, IH. reflexivity. }
  assert (Hvar : varargs (Solution_init s) = 0%Z).
  { unfold Solution_init. cbn [varargs]. rewrite unique_equations_acc.
    rewrite filter_all by (eapply Forall_impl; [exact Hall|]; simpl; tauto).
    pose proof (varcount_init n s Hne Hcols) as Hvc.
    unfold Solution_init in Hvc. cbn [varcount] in Hvc. lia. }
  split; [exact Hsolv|]. split.
  { unfold Solution_init in *. cbn [exact varargs] in *. rewrite Hvar. reflexivity. }
  destruct (triangular_back_substitute n s (fixed_by_single_rows n s) Htri
              (length_fixed_by_single_rows n s) n (Nat.le_refl n))
    as (vals & xs & Hback & Hlv & Hlx & Hres & Heqs).
  rewrite Nat.sub_diag in *. rewrite drop_0 in Hback.
  exists xs. split; [|split; [exact Hlx|]].
  - unfold Solution_call. unfold Solution_bool in Hsolv. rewrite Hsolv.
    rewrite Hvar. cbn [negb length Z.of_nat Z.eqb].
    rewrite (varcount_init n s Hne Hcols).
    change (_s (Solution_init s)) with s.
    rewrite (scan_from_nothing n s Hcols). cbn [mbind result_bind].
    change (rev []) with (@nil Q). rewrite fill_nil.
    rewrite backsubst_rev, Hback. f_equal.
    apply list_eq. intros j. change (map Some xs) with (Some <$> xs).
    rewrite list_lookup_fmap.
    destruct (decide (j < n)%nat) as [Hj | Hj].
    + rewrite Hres by lia.
      destruct (lookup_lt_is_Some_2 xs j) as [x Hx]; [lia|].
      rewrite (entry_lookup _ _ _ Hx), Hx. reflexivity.
    + rewrite (lookup_ge_None_2 vals j) by lia.
      rewrite (lookup_ge_None_2 xs j) by lia. reflexivity.
  - apply Forall_forall. intros row Hin.
    apply list_elem_of_lookup_1 in Hin as [i Hi].
    destruct (triangular_row n s i row Htri Hi) as (Hi' & Hlr & _).
    destruct (Hrows i row Hi) as [Hdiag Hleft].
    apply (triangular_equation n row xs i); try assumption.
    apply Heqs; [lia | exact Hi].
Qed.

End UniqueSolution.

(** * Items of a Point, points of a Plane *)

Section PointItems.
Context {K : Type} `{Scalar K}.

Lemma index3_range (item : Z) :
  match index3 item with
  | Ok i => (-3 <= item < 3)%Z /\ Z.of_nat i = (item mod 3)%Z
  | Raise e => e = IndexError /\ (item < -3 \/ 3 <= item)%Z
  end.
Proof.
  unfold index3.
  destruct ((0 <=? item)%Z && (item <? 3)%Z) eqn:H1.
  - apply andb_true_iff in H1 as [Ha Hb].
    apply Z.leb_le in Ha. apply Z.ltb_lt in Hb.
    split; [lia|]. rewrite Z2Nat.id by lia. rewrite Z.mod_small; lia.
  - destruct ((-3 <=? item)%Z && (item <? 0)%Z) eqn:H2.
    + apply andb_true_iff in H2 as [Ha Hb].
      apply Z.leb_le in Ha. apply Z.ltb_lt in Hb.
      split; [lia|]. rewrite Z2Nat.id by lia.
      apply Z.mod_unique with (q := (-1)%Z); lia.
    + apply andb_false_iff in H1. apply andb_false_iff in H2.
      split; [reflexivity|].
      rewrite Z.leb_gt, Z.ltb_ge in H1. rewrite Z.leb_gt, Z.ltb_ge in H2. lia.
Qed.

(** Item assignment and indexing of a Point agree: both accept exactly
    the indices -3 .. 2 and raise IndexError otherwise; after
    p[item] = value, p[item] is value, and so is p[other] for every
    index other that names the same coordinate (item and other congruent
    modulo 3); an index of another coordinate reads what it read before. *)
Theorem Point_setitem_getitem (self : Point K) (item : Z) (value : K) :
  match Point_setitem self item value with
  | Ok self' =>
      (-3 <= item < 3)%Z
      /\ forall other, (-3 <= other < 3)%Z ->
           Point_getitem self' other
           = if (other mod 3 =? item mod 3)%Z then Ok value
             else Point_getitem self other
  | Raise e =>
      e = IndexError /\ (item < -3 \/ 3 <= item)%Z
      /\ Point_getitem self item = Raise IndexError
  end.
Proof.
  unfold Point_setitem, Point_getitem.
  pose proof (index3_range item) as Hitem.
  destruct (index3 item) as [i|e].
  - cbn [mbind result_bind]. destruct Hitem as [Hr Hi].
    split; [exact Hr|]. intros other Hother.
    pose proof (index3_range other) as Ho.
    destruct (index3 other) as [j|e]; [|lia].
    destruct Ho as [_ Hj]. cbn [mbind result_bind].
    assert (Hi3 : (i < 3)%nat) by (pose proof (Z.mod_pos_bound item 3); lia).
    assert (Hj3 : (j < 3)%nat) by (pose proof (Z.mod_pos_bound other 3); lia).
    destruct (Z.eqb_spec (other mod 3) (item mod 3)) as [Heq | Hne].
    + assert (j = i) by lia. subst j.
      destruct i as [|[|[|i]]]; try lia; reflexivity.
    + assert (j <> i) by lia.
      destruct i as [|[|[|i]]], j as [|[|[|j]]]; try lia; reflexivity.
  - cbn [mbind result_bind]. destruct Hitem as [-> Hr].
    split; [reflexivity|]. split; [exact Hr | reflexivity].
Qed.

End PointItems.

Section PlaneOverQ.
Local Open Scope Q_scope.

(** A Point lies in a Plane exactly when its coordinates satisfy the
    equation a x + b y + c z = d of the plane's general form; the point
    the plane is stored with always lies in it. *)
Theorem Plane_contains_iff_general_form (e : Plane Q) (q : Point Q) :
  (exists a b c d,
     Plane_general_form e = [a; b; c; d]
     /\ (Plane_contains_point e q = true
         <-> a * x q + b * y q + c * z q == d))
  /\ Plane_contains_point e (p e) = true.
Proof.
  destruct e as [[p1 p2 p3] [n1 n2 n3]], q as [q1 q2 q3]. split.
  - eexists _, _, _, _. split; [reflexivity|].
    unfold Plane_contains_point, Vector_dot. simpl.
    rewrite Qeq_bool_iff. split; intros Heq.
    + rewrite (Qmult_comm n1 q1), (Qmult_comm n2 q2), (Qmult_comm n3 q3).
      rewrite Heq. ring.
    + rewrite (Qmult_comm q1 n1), (Qmult_comm q2 n2), (Qmult_comm q3 n3).
      rewrite Heq. ring.
  - unfold Plane_contains_point. simpl. apply Qeq_bool_iff. reflexivity.
Qed.

(** The Plane built from three Points contains the three of them (in
    exact arithmetic), whatever the points, collinear ones included. *)
Theorem Plane_of_points_contains_them (a b c : Point Q) :
  Plane_contains_point (Plane_of_points a b c) a = true
  /\ Plane_contains_point (Plane_of_points a b c) b = true
  /\ Plane_contains_point (Plane_of_points a b c) c = true.
Proof.
  destruct a as [a1 a2 a3], b as [b1 b2 b3], c as [c1 c2 c3].
  unfold Plane_contains_point, Plane_of_points, Vector_dot, Vector_cross,
    Vector_sub, Point_pv. simpl.
  repeat split; apply Qeq_bool_iff; ring.
Qed.

End PlaneOverQ.

(** * What intersection returns *)

Section IntersectionKinds.
Context {K : Type} `{Scalar K} `{VectorTests K}.

(** What intersection returns depends on the kinds of its arguments
    only in this way: two Lines give None or a Point; a Line and a Plane,
    in either order, give None, a Point or that very Line; two Planes
    give None or a Line; any other pair gives NotImplemented. *)
Theorem intersection_result_kinds (a b o : pyobj K) :
  intersection a b = Ok o ->
  match a, b with
  | PyLine _, PyLine _ => o = PyNone \/ exists q, o = PyPoint q
  | PyLine l, PyPlane _ | PyPlane _, PyLine l =>
      o = PyNone \/ (exists q, o = PyPoint q) \/ o = PyLine l
  | PyPlane _, PyPlane _ => o = PyNone \/ exists l, o = PyLine l
  | _, _ => o = PyNotImplemented
  end.
Proof.
  intros Hint.
  destruct a as [| |ba|ka|va|pa|la|ea], b as [| |bb|kb|vb|pb|lb|eb];
    try (simpl in Hint; inversion Hint; reflexivity).
  - (* Line, Line *)
    unfold intersection in Hint.
    destruct (negb _); [inversion Hint; left; reflexivity|].
    destruct (Solution_call _ _) as [t|e]; [|discriminate].
    cbn [mbind result_bind] in Hint.
    destruct t as [|[lmb|] [|mu [|? ?]]]; try discriminate.
    inversion Hint. right. eexists. reflexivity.
  - (* Line, Plane *)
    apply intersection_Line_Plane_cases in Hint. tauto.
  - (* Plane, Line *)
    apply intersection_Line_Plane_cases in Hint. tauto.
  - (* Plane, Plane *)
    unfold intersection in Hint.
    destruct (negb _); [inversion Hint; left; reflexivity|].
    destruct (Solution_call _ [s_ofQ 1]) as [t1|e]; [|discriminate].
    cbn [mbind result_bind] in Hint.
    destruct (Point_of_tuple t1) as [p1|e]; [|discriminate].
    cbn [mbind result_bind] in Hint.
    destruct (Solution_call _ [s_ofQ 2]) as [t2|e]; [|discriminate].
    cbn [mbind result_bind] in Hint.
    destruct (Point_of_tuple t2) as [p2|e]; [|discriminate].
    inversion Hint. right. eexists. reflexivity.
Qed.

End IntersectionKinds.

Section LinePlaneOverQ.
Context `{VectorTests Q}.
Local Open Scope Q_scope.

(** When a Line and a Plane, in either order, intersect in a Point, the
    point lies on the line and in the plane (in exact arithmetic). *)
Theorem intersection_Line_Plane_point (l : Line Q) (e : Plane Q) (q : Point Q) :
  intersection (PyLine l) (PyPlane e) = Ok (PyPoint q)
  \/ intersection (PyPlane e) (PyLine l) = Ok (PyPoint q) ->
  on_line l (Point_pv q) /\ Plane_contains_point e q = true.
Proof.
  intros Hint.
  assert (Hlp : intersection_Line_Plane l e = Ok (PyPoint q))
    by (destruct Hint as [Hint | Hint]; exact Hint).
  clear Hint. unfold intersection_Line_Plane in Hlp.
  destruct (Plane_contains_line e l); [discriminate|].
  destruct (truthy _); [discriminate|].
  unfold py_div in Hlp.
  destruct (s_eqb _ _) eqn:Hden; [discriminate|].
  cbn [mbind result_bind] in Hlp. inversion Hlp as [Hq]. clear Hlp.
  change (Qeq_bool (Vector_dot (n e) (dv l)) 0 = false) in Hden.
  assert (Hne : ~ Vector_dot (n e) (dv l) == 0).
  { intros Heq. apply Qeq_bool_iff in Heq. congruence. }
  destruct l as [[s1 s2 s3] [d1 d2 d3]], e as [[p1 p2 p3] [n1 n2 n3]].
  unfold Vector_dot in *. simpl in *. split.
  - eexists. simpl. repeat split; reflexivity.
  - unfold Plane_contains_point, Vector_dot. simpl.
    apply Qeq_bool_iff. field. exact Hne.
Qed.

End LinePlaneOverQ.

(** * Angles and distances over the reals *)

Section MetricOverR.
Context `{VectorTests R}.
Local Open Scope R_scope.

Lemma Vector_dot_comm (u v : Vector R) : Vector_dot u v = Vector_dot v u.
Proof. unfold Vector_dot. cbn. ring. Qed.

Lemma Vector_angle_comm (u v : Vector R) : Vector_angle u v = Vector_angle v u.
Proof.
  unfold Vector_angle. rewrite (Vector_dot_comm u v).
  cbn [s_mul R_Scalar]. rewrite (Rmult_comm (Vector_length u)). reflexivity.
Qed.

(** angle(a, b) equals angle(b, a) for every pair of arguments, values
    and raised exceptions alike. *)
Theorem angle_symmetric (a b : pyobj R) : angle a b = angle b a.
Proof.
  destruct a as [| |ba|ka|va|pa|la|ea], b as [| |bb|kb|vb|pb|lb|eb];
    try reflexivity.
  - unfold angle. rewrite (Vector_angle_comm (dv la) (dv lb)). reflexivity.
  - unfold angle. rewrite (Vector_angle_comm (n ea) (n eb)). reflexivity.
Qed.

(** Over the reals (math.pi as pi, the subtraction without rounding),
    acute folds [0, pi] onto [0, pi/2]: an angle and its supplement
    have the same acute representative, and applying acute twice
    changes nothing. *)
Theorem acute_of_supplement (theta : R) :
  0 <= theta <= PI ->
  acute (PI - theta) = acute theta /\ acute (acute theta) = acute theta.
Proof.
  intros Hth. rewrite !acute_is_representative.
  split.
  - unfold acute_representative, Rmin.
    destruct (Rle_dec (PI - theta) (PI - (PI - theta))),
             (Rle_dec theta (PI - theta)); lra.
  - pose proof (acute_representative_range theta Hth) as Hr.
    unfold acute_representative at 1. unfold Rmin.
    destruct (Rle_dec _ _); lra.
Qed.

Lemma distance_rec_nonneg (d : nat) :
  forall (a b : pyobj R) (o : pyobj R),
  distance_rec d a b = Ok o ->
  o = PyNotImplemented \/ exists r, o = PyNum r /\ 0 <= r.
Proof.
  induction d as [|d IH]; intros a b o Hd; [discriminate|].
  destruct a as [| |ba|ka|va|pa|la|ea], b as [| |bb|kb|vb|pb|lb|eb];
    try (simpl in Hd; inversion Hd; left; reflexivity).
  - (* Point, Point *)
    cbn [distance_rec] in Hd. inversion Hd. right. eexists.
    split; [reflexivity|]. apply sqrt_pos.
  - (* Point, Line *)
    cbn [distance_rec] in Hd.
    destruct (intersection _ _) as [foot|e]; [|discriminate].
    cbn [mbind result_bind] in Hd. eapply IH. exact Hd.
  - (* Point, Plane *)
    cbn [distance_rec] in Hd.
    destruct (intersection _ _) as [foot|e]; [|discriminate].
    cbn [mbind result_bind] in Hd. eapply IH. exact Hd.
  - (* Line, Point *)
    cbn [distance_rec] in Hd. eapply IH. exact Hd.
  - (* Line, Line *)
    cbn [distance_rec] in Hd.
    destruct (Vector_normalized _) as [nm|e]; [|discriminate].
    cbn [mbind result_bind] in Hd. inversion Hd. right. eexists.
    split; [reflexivity|]. apply Rabs_pos.
  - (* Line, Plane *)
    cbn [distance_rec] in Hd. destruct (truthy _).
    + eapply IH. exact Hd.
    + inversion Hd. right. eexists. split; [reflexivity|].
      cbn. rewrite RMicromega.Q2R_0. lra.
  - (* Plane, Point *)
    cbn [distance_rec] in Hd. eapply IH. exact Hd.
  - (* Plane, Line *)
    cbn [distance_rec] in Hd. eapply IH. exact Hd.
Qed.

(** distance returns a number that is not negative, or the
    NotImplemented marker; it never returns anything else. *)
Theorem distance_is_nonnegative (a b o : pyobj R) :
  distance a b = Ok o ->
  o = PyNotImplemented \/ exists r, o = PyNum r /\ 0 <= r.
Proof. apply distance_rec_nonneg. Qed.

(** The distance of two Points is 0 exactly when they have the same
    coordinates. *)
Theorem distance_Point_Point_zero (a b : Point R) :
  distance (PyPoint a) (PyPoint b) = Ok (PyNum 0) <-> a = b.
Proof.
  unfold distance. change recursion_limit with (S 999).
  cbn [distance_rec]. unfold Vector_length, Vector_between, Vector_dot.
  destruct a as [a1 a2 a3], b as [b1 b2 b3].
  cbn [x y z vx vy vz s_add s_sub s_mul R_Scalar math_sqrt R_MathLib].
  set (sq := (b1 - a1) * (b1 - a1) + (b2 - a2) * (b2 - a2)
             + (b3 - a3) * (b3 - a3)).
  pose proof (Rle_0_sqr (b1 - a1)) as S1.
  pose proof (Rle_0_sqr (b2 - a2)) as S2.
  pose proof (Rle_0_sqr (b3 - a3)) as S3.
  unfold Rsqr in S1, S2, S3.
  assert (Hsq : 0 <= sq) by (unfold sq; lra).
  split.
  - intros Heq. inversion Heq as [Hs].
    apply sqrt_eq_0 in Hs; [|exact Hsq].
    unfold sq in Hs.
    assert (E1 : (b1 - a1) * (b1 - a1) = 0) by lra.
    assert (E2 : (b2 - a2) * (b2 - a2) = 0) by lra.
    assert (E3 : (b3 - a3) * (b3 - a3) = 0) by lra.
    apply Rsqr_0_uniq in E1. apply Rsqr_0_uniq in E2. apply Rsqr_0_uniq in E3.
    f_equal; lra.
  - intros Heq. inversion Heq; subst. do 2 f_equal.
    replace sq with 0 by (unfold sq; ring). apply sqrt_0.
Qed.

End MetricOverR.

(** * The distance of a Point and a Plane *)

Section PointPlaneOverR.
Context `{VectorTests R}.
Local Open Scope R_scope.

Lemma Reqb_refl (a : R) : Reqb a a = true.
Proof. unfold Reqb. destruct (Req_dec_T a a); [reflexivity | contradiction]. Qed.

Lemma Point_of_vector_pv (a : Point R) : Point_of_vector (Point_pv a) = a.
Proof. destruct a. reflexivity. Qed.

(** The auxiliary line through [a] along the normal lies in the plane:
    the call then never returns. *)
Lemma distance_Point_Plane_contained (a : Point R) (e : Plane R) (d : nat) :
  Plane_contains_line e (Line_of_point a (n e)) = true ->
  distance_rec d (PyPoint a) (PyLine (Line_of_point a (n e)))
  = Raise RecursionError.
Proof.
  intros Hin. apply distance_Point_Line_diverges.
  unfold Plane_contains_line in Hin. apply andb_true_iff in Hin as [_ Hpar].
  cbn [parallel truthy Line_of_point dv n] in Hpar.
  cbn [intersection]. unfold intersection_Line_Plane, Plane_contains_line.
  cbn [Line_of_point sv dv n p parallel truthy]. rewrite Hpar.
  rewrite Point_of_vector_pv. unfold Plane_contains_point.
  cbn [p n s_eqb R_Scalar]. rewrite Reqb_refl. reflexivity.
Qed.

Lemma sqrt_scaled (mu nn : R) :
  0 <= nn -> sqrt (mu * mu * nn) = Rabs mu * sqrt nn.
Proof.
  intros Hnn. rewrite sqrt_mult_alt by nra.
  f_equal. replace (mu * mu) with (Rsqr mu) by (unfold Rsqr; ring).
  apply sqrt_Rsqr_abs.
Qed.

Lemma sum_squares_pos (n1 n2 n3 : R) :
  n1 * n1 + n2 * n2 + n3 * n3 <> 0 -> 0 < n1 * n1 + n2 * n2 + n3 * n3.
Proof.
  intros Hne. pose proof (Rle_0_sqr n1) as S1. pose proof (Rle_0_sqr n2) as S2.
  pose proof (Rle_0_sqr n3) as S3. unfold Rsqr in *. lra.
Qed.

Lemma foot_offset (a1 a2 a3 n1 n2 n3 mu : R) :
  (a1 + mu * n1 - a1) * (a1 + mu * n1 - a1)
  + (a2 + mu * n2 - a2) * (a2 + mu * n2 - a2)
  + (a3 + mu * n3 - a3) * (a3 + mu * n3 - a3)
  = mu * mu * (n1 * n1 + n2 * n2 + n3 * n3).
Proof. ring. Qed.

Lemma abs_over_norm (D nn : R) :
  0 < nn -> Rabs (D / nn) * sqrt nn = Rabs D / sqrt nn.
Proof.
  intros Hnn. unfold Rdiv at 1. rewrite Rabs_mult, (Rabs_pos_eq (/ nn)).
  2:{ left. apply Rinv_0_lt_compat. exact Hnn. }
  pose proof (sqrt_lt_R0 nn Hnn) as Hs.
  pose proof (sqrt_sqrt nn (Rlt_le _ _ Hnn)) as Hss.
  rewrite <- Hss at 1. field. lra.
Qed.

Lemma distance_rec_Point_Plane (d : nat) (a : Point R) (e : Plane R) (r : R) :
  distance_rec (S (S d)) (PyPoint a) (PyPlane e) = Ok (PyNum r) ->
  r = Rabs (Vector_dot (n e) (Point_pv (p e)) - Vector_dot (n e) (Point_pv a))
      / Vector_length (n e).
Proof.
  change (distance_rec (S (S d)) (PyPoint a) (PyPlane e))
    with (foot ← intersection (PyLine (Line_of_point a (n e))) (PyPlane e);
          distance_rec (S d) (PyPoint a) foot).
  cbn [intersection]. unfold intersection_Line_Plane.
  destruct (Plane_contains_line e (Line_of_point a (n e))) eqn:Hin.
  { cbn [mbind result_bind].
    rewrite (distance_Point_Plane_contained a e (S d) Hin). discriminate. }
  destruct (truthy _); [discriminate|].
  unfold py_div. cbn [Line_of_point sv dv].
  destruct (s_eqb _ _) eqn:Hden; [discriminate|].
  cbn [mbind result_bind distance_rec]. intros Heq.
  assert (Hr : forall u v : R, Ok (PyNum u) = Ok (PyNum v) :> result (pyobj R) -> u = v)
    by (intros u v Huv; congruence).
  apply Hr in Heq. subst r. clear Hr.
  cbn [s_eqb R_Scalar s_ofQ] in Hden. unfold Reqb in Hden.
  destruct (Req_dec_T _ _) as [|Hne]; [discriminate|].
  rewrite RMicromega.Q2R_0 in Hne.
  destruct a as [a1 a2 a3], e as [[p1 p2 p3] [n1 n2 n3]].
  unfold Vector_length, Vector_between, Vector_dot, Vector_add, Vector_scale,
    Point_of_vector, Point_pv in *.
  cbn [x y z vx vy vz n p s_add s_sub s_mul s_div R_Scalar math_sqrt R_MathLib]
    in *.
  apply sum_squares_pos in Hne.
  rewrite foot_offset, sqrt_scaled by lra.
  apply abs_over_norm. exact Hne.
Qed.

(** When distance of a Point and a Plane returns a number, it is
    |n . p - n . a| / |n|, the distance of the point a from the plane
    with point p and normal n. *)
Theorem distance_Point_Plane_formula (a : Point R) (e : Plane R) (r : R) :
  distance (PyPoint a) (PyPlane e) = Ok (PyNum r) ->
  r = Rabs (Vector_dot (n e) (Point_pv (p e)) - Vector_dot (n e) (Point_pv a))
      / Vector_length (n e).
Proof. exact (distance_rec_Point_Plane 998 a e r). Qed.

End PointPlaneOverR.


(** * parallel and orthogonal in either order *)

Section RelationsOverR.
Context `{VectorTests R}.
Local Open Scope R_scope.

Lemma null_opp (a : R) : null (- a) = null a.
Proof. unfold null. cbn [s_abs s_ltb R_Scalar]. rewrite Rabs_Ropp. reflexivity. Qed.

Lemma tolerance_parallel_sym (u v : Vector R) :
  Vector_parallel (VectorTests := tolerance_tests) u v
  = Vector_parallel (VectorTests := tolerance_tests) v u.
Proof.
  destruct u as [u1 u2 u3], v as [v1 v2 v3].
  cbn [Vector_parallel tolerance_tests Vector_cross Vector_list nullrow forallb
       vx vy vz s_sub s_mul R_Scalar].
  rewrite <- (null_opp (v2 * u3 - v3 * u2)), <- (null_opp (v3 * u1 - v1 * u3)),
    <- (null_opp (v1 * u2 - v2 * u1)).
  replace (- (v2 * u3 - v3 * u2)) with (u2 * v3 - u3 * v2) by ring.
  replace (- (v3 * u1 - v1 * u3)) with (u3 * v1 - u1 * v3) by ring.
  replace (- (v1 * u2 - v2 * u1)) with (u1 * v2 - u2 * v1) by ring.
  reflexivity.
Qed.

Lemma tolerance_orthogonal_sym (u v : Vector R) :
  Vector_orthogonal (VectorTests := tolerance_tests) u v
  = Vector_orthogonal (VectorTests := tolerance_tests) v u.
Proof.
  cbn [Vector_orthogonal tolerance_tests]. rewrite (Vector_dot_comm u v).
  reflexivity.
Qed.

(** When the two tests of Vector do not depend on the order of their
    arguments, neither do parallel and orthogonal, for every pair of
    arguments: the Plane/Line order delegates to the Line/Line order,
    and the dot product of the Line/Line test of orthogonal commutes. *)
Theorem parallel_orthogonal_symmetric :
  (forall u v : Vector R, Vector_parallel u v = Vector_parallel v u) ->
  (forall u v : Vector R, Vector_orthogonal u v = Vector_orthogonal v u) ->
  forall a b : pyobj R,
  parallel a b = parallel b a /\ orthogonal a b = orthogonal b a.
Proof.
  intros Hp Ho a b.
  destruct a as [| |ba|ka|va|pa|la|ea], b as [| |bb|kb|vb|pb|lb|eb];
    try (split; reflexivity); cbn [parallel orthogonal].
  - rewrite (Hp (dv la) (dv lb)), (Vector_dot_comm (dv la) (dv lb)).
    split; reflexivity.
  - rewrite (Hp (n ea) (n eb)), (Ho (n ea) (n eb)). split; reflexivity.
Qed.

End RelationsOverR.

(** * Equality and translation of Points *)

Section PointOverQ.
Local Open Scope Q_scope.

Lemma Point_eq_iff (a b : Point Q) :
  Point_eq a b = true <-> x a == x b /\ y a == y b /\ z a == z b.
Proof.
  unfold Point_eq. cbn [s_eqb Q_Scalar].
  rewrite !andb_true_iff, !Qeq_bool_iff. tauto.
Qed.

(** In exact rational arithmetic (coordinates that are numbers, sums
    without rounding), Point.__eq__, which compares coordinate by
    coordinate, is reflexive, symmetric and transitive, and the point
    moved by a vector equals the point itself exactly when the vector is
    zero. *)
Theorem Point_eq_equivalence (a b c : Point Q) (v : Vector Q) :
  Point_eq a a = true
  /\ Point_eq a b = Point_eq b a
  /\ (Point_eq a b = true -> Point_eq b c = true -> Point_eq a c = true)
  /\ (Point_eq (Point_moved a v) a = true
      <-> vx v == 0 /\ vy v == 0 /\ vz v == 0).
Proof.
  split; [apply Point_eq_iff; repeat split; reflexivity|].
  split.
  { apply eq_true_iff_eq. rewrite !Point_eq_iff.
    split; intros (E1 & E2 & E3); repeat split; symmetry; assumption. }
  split.
  { rewrite !Point_eq_iff. intros (E1 & E2 & E3) (F1 & F2 & F3).
    repeat split; etransitivity; eassumption. }
  rewrite Point_eq_iff. destruct a as [a1 a2 a3], v as [v1 v2 v3].
  unfold Point_moved, Point_of_vector, Vector_add, Point_pv.
  cbn [x y z vx vy vz s_add Q_Scalar].
  split; intros (E1 & E2 & E3); repeat split; Lqa.lra.
Qed.

End PointOverQ.

(** * The further theorems at concrete inputs *)

Section FurtherInstances.
Local Open Scope Q_scope.

(** The outcomes of a query, on x = 5, y + z = 2, queried with z = 7. *)
Lemma query_outcomes_witness :
  let s := [[1; 0; 0; 5]; [0; 1; 1; 2]] in
  s <> [] /\ has_cols 4 s
  /\ (exists t, Solution_call (Solution_init s) [7] = Ok t)
  /\ match Solution_call (Solution_init s) [7] with
     | Ok t =>
         length t = 3%nat /\ Solution_bool (Solution_init s) = true
         /\ Z.of_nat (length [7]) = varargs (Solution_init s)
     | Raise e =>
         (e = ValueError_no_solution /\ Solution_bool (Solution_init s) = false)
         \/ (e = ValueError_count (varargs (Solution_init s)) (length [7])
             /\ Solution_bool (Solution_init s) = true
             /\ Z.of_nat (length [7]) <> varargs (Solution_init s))
         \/ (e = TypeError
             /\ Solution_bool (Solution_init s) = true
             /\ Z.of_nat (length [7]) = varargs (Solution_init s))
     end.
Proof.
  intros s.
  assert (Hne : s <> []) by discriminate.
  assert (Hc : has_cols 4 s) by (repeat constructor).
  split; [exact Hne|]. split; [exact Hc|]. split.
  - eexists. vm_compute. reflexivity.
  - exact (query_outcomes 3 s [7] Hne Hc).
Defined.

(** One equation: 2x + y + z = 4 and 0x + y + z = 5, queried with
    (1, 1). *)
Lemma single_equation_query_witness :
  (exists v, Solution_call (solve [[2; 1; 1; 4]]) [1; 1]
             = Ok [Some v; Some 1; Some 1] /\ v == 1)
  /\ (exists v, Solution_call (solve [[0; 1; 1; 5]]) [1; 1]
                = Ok [None; Some v; Some 1] /\ v == 4).
Proof.
  split.
  - eexists. split.
    + exact (proj1 (single_equation_query 2 1 1 4 1 1) eq_refl).
    + vm_compute. reflexivity.
  - eexists. split.
    + exact (proj2 (proj2 (proj2 (single_equation_query 0 1 1 5 1 1)))
               eq_refl eq_refl eq_refl).
    + vm_compute. reflexivity.
Defined.

(** Plane(0, 0, 0, 1) and Plane(0, 0, 0, 0). *)
Lemma Plane_init_gf_degenerate_witness :
  Plane_init_gf 0 0 0 1 = Raise ValueError_no_solution
  /\ Plane_init_gf 0 0 0 0 = Raise (ValueError_count 3 2).
Proof.
  split.
  - exact (Plane_init_gf_degenerate 0 0 0 1 eq_refl eq_refl eq_refl).
  - exact (Plane_init_gf_degenerate 0 0 0 0 eq_refl eq_refl eq_refl).
Defined.

(** Plane(2, 1, 1, 4). *)
Lemma Plane_general_form_round_trip_witness :
  null (2 : Q) = false
  /\ exists e d',
       Plane_init_gf 2 1 1 4 = Ok e
       /\ y (p e) = 1 /\ z (p e) = 1
       /\ Plane_general_form e = [2; 1; 1; d'] /\ d' == 4.
Proof.
  split; [reflexivity|].
  exact (Plane_general_form_round_trip 2 1 1 4 eq_refl).
Defined.

(** The triangular system 2x + y = 5, y = 1. *)
Lemma triangular_system_is_solved_witness :
  let s := [[2; 1; 5]; [0; 1; 1]] in
  (0 < 2)%nat /\ triangular 2 s
  /\ Solution_bool (Solution_init s) = true
  /\ exact (Solution_init s) = true
  /\ exists xs,
       Solution_call (Solution_init s) [] = Ok (map Some xs)
       /\ length xs = 2%nat /\ Forall (equation_holds xs) s.
Proof.
  intros s.
  assert (Hn : (0 < 2)%nat) by lia.
  assert (Ht : triangular 2 s).
  { split; [reflexivity|]. split; [repeat constructor|].
    intros i row Hrow. destruct i as [|[|i]]; simpl in Hrow;
      [| |discriminate]; inversion Hrow; subst row;
      (split; [vm_compute; reflexivity|]); intros j Hj.
    - lia.
    - destruct j as [|j]; [reflexivity | lia]. }
  split; [exact Hn|]. split; [exact Ht|].
  exact (triangular_system_is_solved 2 s Hn Ht).
Defined.

(** Two lines through the origin. *)
Lemma intersection_result_kinds_witness :
  let a := PyLine (mkLine (mkVector 0 0 0) (mkVector 1 0 0)) in
  let b := PyLine (mkLine (mkVector 0 0 0) (mkVector 0 1 0)) in
  let o := PyPoint (mkPoint 0 0 0) in
  intersection (H0 := tolerance_tests) a b = Ok o
  /\ (o = PyNone \/ exists q, o = PyPoint q).
Proof.
  intros a b o. split; [exact lines_meet_at_origin|].
  exact (intersection_result_kinds (H0 := tolerance_tests) a b o
           lines_meet_at_origin).
Defined.

(** The z axis and the plane z = 1. *)
Lemma intersection_Line_Plane_point_witness :
  let l := mkLine (mkVector 0 0 0) (mkVector 0 0 1) in
  let e := mkPlane (mkPoint 0 0 1) (mkVector 0 0 1) in
  exists q,
    intersection (H0 := tolerance_tests) (PyLine l) (PyPlane e)
    = Ok (PyPoint q)
    /\ on_line l (Point_pv q) /\ Plane_contains_point e q = true.
Proof.
  intros l e. eexists. split.
  - vm_compute. reflexivity.
  - apply (intersection_Line_Plane_point (H := tolerance_tests) l e).
    left. vm_compute. reflexivity.
Defined.

End FurtherInstances.

Section FurtherInstancesOverR.
Local Open Scope R_scope.

(** acute at the angle 0. *)
Lemma acute_of_supplement_witness :
  0 <= 0 <= PI
  /\ acute (PI - 0) = acute 0 /\ acute (acute 0) = acute 0.
Proof.
  assert (H0 : 0 <= 0 <= PI) by (pose proof PI_RGT_0; lra).
  split; [exact H0|]. exact (acute_of_supplement 0 H0).
Defined.

(** The origin and the plane z = 1. *)
Lemma distance_is_nonnegative_witness :
  let a := PyPoint (mkPoint 0 0 0) in
  let e := PyPlane (mkPlane (mkPoint 0 0 1) (mkVector 0 0 1)) in
  distance (H1 := tolerance_tests) a e = Ok (PyNum 1)
  /\ (PyNum 1 = PyNotImplemented \/ exists r, PyNum 1 = PyNum r /\ 0 <= r).
Proof.
  intros a e. split; [exact distance_point_plane|].
  exact (distance_is_nonnegative (H := tolerance_tests) a e (PyNum 1)
           distance_point_plane).
Defined.

(** The origin and the plane z = 1, whose normal has length 1. *)
Lemma distance_Point_Plane_formula_witness :
  let a := mkPoint 0 0 0 in
  let e := mkPlane (mkPoint 0 0 1) (mkVector 0 0 1) in
  distance (H1 := tolerance_tests) (PyPoint a) (PyPlane e) = Ok (PyNum 1)
  /\ 1 = Rabs (Vector_dot (n e) (Point_pv (p e))
               - Vector_dot (n e) (Point_pv a))
         / Vector_length (n e).
Proof.
  intros a e. split; [exact distance_point_plane|].
  exact (distance_Point_Plane_formula (H := tolerance_tests) a e 1
           distance_point_plane).
Defined.

(** Two lines, with the tests read as tolerance tests. *)
Lemma parallel_orthogonal_symmetric_witness :
  let a := PyLine (mkLine (mkVector 0 0 0) (mkVector 1 0 0)) in
  let b := PyLine (mkLine (mkVector 0 1 0) (mkVector 1 1 0)) in
  parallel (H0 := tolerance_tests) a b = parallel (H0 := tolerance_tests) b a
  /\ orthogonal (H0 := tolerance_tests) a b
     = orthogonal (H0 := tolerance_tests) b a.
Proof.
  intros a b.
  exact (parallel_orthogonal_symmetric (H := tolerance_tests)
           tolerance_parallel_sym tolerance_orthogonal_sym a b).
Defined.

End FurtherInstancesOverR.
